(** * bootstrap.mjs: the project bootstrap script, as a straight-line
      effectful program

    The script is a sequence of ten [async] functions, called one after
    the other at module level, every call awaited.  Each function is a
    block of statements; each statement is one call into the outside
    world ([printStep], a zx [$] command line, [cd], or an [fs] call),
    and none of them uses the result of an earlier one.

    The development has three layers:
    - the data the script carries (JSON values, file texts, the
      dependency list) and the ten function bodies;
    - the control flow: a small state-and-exception monad in which a
      statement either settles or throws, over an arbitrary outside
      world ([Section Script]);
    - a reference outside world (a directory tree with a working
      directory, [rm -rf], [chmod a+x] and the [fs] calls) used for the
      statements about permissions and about running twice. *)

From Stdlib Require Import Ascii String.
From stdpp Require Import base option list strings gmap fin_maps sorting.

Set Warnings "-register-all".

Local Open Scope string_scope.
Local Open Scope list_scope.

(** ** Characters that cannot be written inside a literal *)

Definition dq : string := String (Ascii.ascii_of_nat 34) EmptyString.
Definition nl : string := String (Ascii.ascii_of_nat 10) EmptyString.

(** A template literal that spans several source lines: the lines joined
    by a line feed (no line feed after the last one). *)
Definition text (ls : list string) : string := String.concat nl ls.

(** ** JSON values handed to [fs.writeJSONSync]

    An object literal keeps its keys in the order they are written (none
    of the keys of the script is an integer index), so an object is an
    association list. *)

Inductive json : Type :=
| JBool (b : bool)
| JStr (s : string)
| JArr (items : list json)
| JObj (fields : list (string * json)).

Fixpoint field (k : string) (fs : list (string * json)) : option json :=
  match fs with
  | [] => None
  | (k', v) :: rest => if String.eqb k k' then Some v else field k rest
  end.

(** [obj[k]] *)
Definition get (k : string) (obj : json) : option json :=
  match obj with
  | JObj fs => field k fs
  | _ => None
  end.

Definition keys (obj : json) : list string :=
  match obj with
  | JObj fs => map fst fs
  | _ => []
  end.

(** ** Statements

    One constructor per kind of call the script makes.  A [$] command
    line is recorded by its words, as the shell hands them to the
    program it starts: zx quotes every interpolated value, so a value is
    one word, and an interpolated array is one word per element. *)

Inductive effect : Type :=
| printStep (msg : string)
| sh (argv : list string)
| mkdirSync (path : string)
| cd (path : string)
| ensureFileSync (path : string)
| writeFileSync (path : string) (data : string)
| writeJSONSync (path : string) (obj : json) (spaces : nat).

(** The ten functions, in the order of their definitions in the file
    (which is also the order of the calls). *)
Inductive stage : Type :=
| Prepare
| InstallDependencies
| PrepareHusky
| PrepareSpellChecker
| PrepareCommitLint
| PrepareLinter
| PrepareFormatter
| PrepareLintStaged
| PrepareSemanticRelease
| PrepareTest.

Definition stage_number (s : stage) : nat :=
  match s with
  | Prepare => 1
  | InstallDependencies => 2
  | PrepareHusky => 3
  | PrepareSpellChecker => 4
  | PrepareCommitLint => 5
  | PrepareLinter => 6
  | PrepareFormatter => 7
  | PrepareLintStaged => 8
  | PrepareSemanticRelease => 9
  | PrepareTest => 10
  end.

Definition all_stages : list stage :=
  [ Prepare; InstallDependencies; PrepareHusky; PrepareSpellChecker;
    PrepareCommitLint; PrepareLinter; PrepareFormatter; PrepareLintStaged;
    PrepareSemanticRelease; PrepareTest ].

#[global] Instance stage_eq_dec : EqDecision stage.
Proof. solve_decision. Defined.

(** ** The function bodies *)

Section Bodies.

(** [PROJECT_FOLDER] is imported from [./utils/env.mjs]; the script
    only interpolates it into three paths. *)
Variable PROJECT_FOLDER : string.

Definition prepare : list effect :=
  [ printStep "Preparing ...";
    sh ["rm"; "-rf"; "./" +:+ PROJECT_FOLDER];
    mkdirSync ("./" +:+ PROJECT_FOLDER);
    cd ("./" +:+ PROJECT_FOLDER);
    sh ["npm"; "init"; "-y"];
    sh ["git"; "init"];
    writeFileSync ".gitignore" "node_modules" ].

Definition devDependencies : list string :=
  [ "@commitlint/cli";
    "@commitlint/config-conventional";
    "@semantic-release/changelog";
    "@semantic-release/git";
    "@types/jest";
    "cspell";
    "eslint-config-airbnb-base@latest";
    "eslint-config-prettier";
    "eslint-plugin-import@^2.25.2";
    "eslint-plugin-markdownlint";
    "eslint-plugin-prettier";
    "eslint@^8.2.0";
    "husky";
    "imagemin-lint-staged";
    "jest";
    "lint-staged";
    "markdownlint";
    "markdownlint-cli";
    "nodemon";
    "prettier";
    "semantic-release" ].

Definition installDependencies : list effect :=
  [ printStep "Installing dependencies...";
    sh (["npm"; "install"; "--save-dev"] ++ devDependencies) ].

Definition prepareHusky : list effect :=
  [ printStep "Setting up semantic-release...";
    sh ["npx"; "--no-install"; "husky"; "install"] ].

Definition cspell_json : json :=
  JObj
    [ ("ignorePaths", JArr [JStr "node_modules"]);
      ("words",
        JArr
          [ JStr "commitlint";
            JStr "imagemin";
            JStr "markdownlint";
            JStr "parens";
            JStr "postcss";
            JStr "stylelint" ]) ].

Definition prepareSpellChecker : list effect :=
  [ printStep "Setting up cSpell ...";
    ensureFileSync "./cspell.json";
    writeJSONSync "./cspell.json" cspell_json 2 ].

Definition commitlint_config_js : string :=
  text
    [ "module.exports = {";
      "  extends: ['@commitlint/config-conventional'],";
      "  rules: {";
      "    'references-empty': [2, 'never'],";
      "  },";
      "};" ].

(** In the source the dollars of this template are escaped; the text
    holds them plain. *)
Definition commit_msg_hook : string :=
  text
    [ "#!/bin/sh";
      ". " +:+ dq +:+ "$(dirname " +:+ dq +:+ "$0" +:+ dq +:+ ")/_/husky.sh"
        +:+ dq;
      "";
      "npx --no -- commitlint --edit " +:+ dq +:+ "${1}" +:+ dq;
      "npx --no -- cspell --no-summary --no-progress " +:+ dq +:+ "${1}"
        +:+ dq ].

Definition prepareCommitLint : list effect :=
  [ printStep "Setting up commitlint...";
    ensureFileSync "commitlint.config.js";
    writeFileSync "commitlint.config.js" commitlint_config_js;
    ensureFileSync "./.husky/commit-msg";
    writeFileSync "./.husky/commit-msg" commit_msg_hook;
    sh ["chmod"; "a+x"; "./.husky/commit-msg"] ].

Definition eslintrc_js : string :=
  text
    [ "module.exports = {";
      "  env: {";
      "    commonjs: true,";
      "    es2021: true,";
      "    jest: true,";
      "    node: true,";
      "  },";
      "  extends: [" +:+ dq +:+ "airbnb-base" +:+ dq +:+ "],";
      "  overrides: [";
      "    {";
      "      files: [" +:+ dq +:+ "*.md" +:+ dq +:+ "],";
      "      parser: " +:+ dq +:+ "eslint-plugin-markdownlint/parser" +:+ dq
        +:+ ",";
      "      extends: [" +:+ dq +:+ "plugin:markdownlint/recommended" +:+ dq
        +:+ "]";
      "    }";
      "  ],";
      "  parserOptions: {";
      "    ecmaVersion: " +:+ dq +:+ "latest" +:+ dq +:+ ",";
      "  },";
      "  rules: {},";
      "};" ].

Definition eslintignore : string :=
  text
    [ "coverage/*";
      "node_modules/*";
      "build/*";
      ".eslintrc.js";
      "" ].

Definition prepareLinter : list effect :=
  [ printStep "Setting up eslint + airbnb ...";
    ensureFileSync "./.eslintrc.js";
    writeFileSync "./.eslintrc.js" eslintrc_js;
    ensureFileSync "./.eslintignore";
    writeFileSync "./.eslintignore" eslintignore ].

Definition prettierrc : string :=
  text
    [ "{";
      "  " +:+ dq +:+ "arrowParens" +:+ dq +:+ ": " +:+ dq +:+ "always" +:+ dq
        +:+ ",";
      "  " +:+ dq +:+ "printWidth" +:+ dq +:+ ": 80,";
      "  " +:+ dq +:+ "proseWrap" +:+ dq +:+ ": " +:+ dq +:+ "preserve" +:+ dq
        +:+ ",";
      "  " +:+ dq +:+ "semi" +:+ dq +:+ ": true,";
      "  " +:+ dq +:+ "singleQuote" +:+ dq +:+ ": true,";
      "  " +:+ dq +:+ "trailingComma" +:+ dq +:+ ": " +:+ dq +:+ "es5" +:+ dq;
      "}";
      "  " ].

Definition prepareFormatter : list effect :=
  [ printStep "Setting up prettier...";
    ensureFileSync "./.prettierrc";
    writeFileSync "./.prettierrc" prettierrc;
    ensureFileSync "./.prettierignore";
    writeFileSync "./.prettierignore" "node_modules/**" ].

Definition lintstagedrc : json :=
  JObj
    [ ("*", JStr "cspell --no-summary --no-progress");
      ("*.md", JStr "markdownlint --fix --ignore CHANGELOG.md");
      ("*.{js,jsx,ts,tsx,html,css}",
        JArr [JStr "prettier --write"; JStr "eslint --fix"]);
      ("*.{png,jpeg,jpg,gif,svg}", JStr "imagemin-lint-staged");
      ("*.scss",
        JArr
          [ JStr "postcss --config path/to/your/config --replace";
            JStr "stylelint" ]) ].

Definition pre_commit_hook : string :=
  text
    [ "#!/usr/bin/env sh";
      ". " +:+ dq +:+ "$(dirname " +:+ dq +:+ "$0" +:+ dq +:+ ")/_/husky.sh"
        +:+ dq;
      "";
      "npx lint-staged" ].

Definition prepareLintStaged : list effect :=
  [ printStep "Setting up prettier...";
    ensureFileSync "./.lintstagedrc";
    writeJSONSync "./.lintstagedrc" lintstagedrc 2;
    ensureFileSync "./.husky/pre-commit";
    writeFileSync "./.husky/pre-commit" pre_commit_hook;
    sh ["chmod"; "a+x"; "./.husky/pre-commit"] ].

(** The message is a plain single-quoted string: its dollar and braces
    are not interpolated. *)
Definition releaserc_json : json :=
  JObj
    [ ("ci", JBool false);
      ("branches", JArr [JStr "master"]);
      ("plugins",
        JArr
          [ JStr "@semantic-release/commit-analyzer";
            JStr "@semantic-release/release-notes-generator";
            JStr "@semantic-release/changelog";
            JArr
              [ JStr "@semantic-release/git";
                JObj
                  [ ("message",
                      JStr "chore(release): ${nextRelease.version}") ] ] ]);
      ("repositoryUrl", JStr "REPLACE ME") ].

Definition prepareSemanticRelease : list effect :=
  [ printStep "Setting up semantic release ...";
    writeJSONSync ".releaserc.json" releaserc_json 2;
    sh ["npm"; "set-script"; "release"; "semantic-release"];
    sh ["npm"; "set-script"; "release:dry"; "semantic-release --dry-run"] ].

Definition jest_config_js : string :=
  text
    [ "/*";
      "  * For a detailed explanation regarding each configuration property, visit:";
      "  * https://jestjs.io/docs/configuration";
      "*/";
      "";
      "module.exports = {";
      "  clearMocks: true,";
      "  collectCoverage: true,";
      "  coverageDirectory: 'coverage',";
      "  coverageProvider: 'v8',";
      "};";
      "" ].

Definition prepareTest : list effect :=
  [ printStep "Setting up semantic jest ...";
    ensureFileSync "./jest.config.js";
    writeFileSync "./jest.config.js" jest_config_js;
    sh ["npm"; "set-script"; "test"; "jest"] ].

(** The body of each function. *)
Definition body (s : stage) : list effect :=
  match s with
  | Prepare => prepare
  | InstallDependencies => installDependencies
  | PrepareHusky => prepareHusky
  | PrepareSpellChecker => prepareSpellChecker
  | PrepareCommitLint => prepareCommitLint
  | PrepareLinter => prepareLinter
  | PrepareFormatter => prepareFormatter
  | PrepareLintStaged => prepareLintStaged
  | PrepareSemanticRelease => prepareSemanticRelease
  | PrepareTest => prepareTest
  end.

End Bodies.

(** ** Control flow

    A statement either settles or throws; in both cases the outside
    world may have changed (a command that exits non-zero can leave
    files behind). *)

Inductive result (S E : Type) : Type :=
| Ok (s : S)
| Threw (err : E) (s : S).

Arguments Ok {S E} s.
Arguments Threw {S E} err s.

Definition state_of {S E} (r : result S E) : S :=
  match r with
  | Ok s => s
  | Threw _ s => s
  end.

Definition succeeded {S E} (r : result S E) : bool :=
  match r with
  | Ok _ => true
  | Threw _ _ => false
  end.

(** What the operating system sees when the script ends: zx sets the
    exit code 1 when the module rejects, and it is 0 otherwise. *)
Definition exit_status {S E} (r : result S E) : nat :=
  match r with
  | Ok _ => 0
  | Threw _ _ => 1
  end.

Definition error_of {S E} (r : result S E) : option E :=
  match r with
  | Ok _ => None
  | Threw err _ => Some err
  end.

(** What a run has done so far: the outside world as it stands, and the
    statements issued, each with the function it belongs to. *)
Record run (world : Type) : Type :=
  { env : world;
    log : list (stage * effect) }.

Arguments env {world} r.
Arguments log {world} r.

Definition start {world} (w : world) : run world := {| env := w; log := [] |}.

Section Script.

Variable PROJECT_FOLDER : string.

(** The outside world and its answer to a statement are arbitrary:
    any process may fail, any [fs] call may throw. *)
Context {world error : Type}.
Variable perform : effect -> world -> result world error.

Definition script : Type := run world -> result (run world) error.

Definition skip : script := fun r => Ok r.

(** [a; b] where [a] is awaited (or synchronous): [b] starts when [a]
    has settled, and does not start when [a] has thrown. *)
Definition and_then (a b : script) : script :=
  fun r =>
    match a r with
    | Ok r' => b r'
    | Threw err r' => Threw err r'
    end.

(** One statement of function [s]. *)
Definition await (s : stage) (e : effect) : script :=
  fun r =>
    let issued := log r ++ [(s, e)] in
    match perform e (env r) with
    | Ok w => Ok {| env := w; log := issued |}
    | Threw err w => Threw err {| env := w; log := issued |}
    end.

Fixpoint block (s : stage) (stmts : list effect) : script :=
  match stmts with
  | [] => skip
  | e :: rest => and_then (await s e) (block s rest)
  end.

(** [await f()] *)
Definition call (s : stage) : script := block s (body PROJECT_FOLDER s).

(** The module level of the script. *)
Definition main : script :=
  and_then (call Prepare)
 (and_then (call InstallDependencies)
 (and_then (call PrepareHusky)
 (and_then (call PrepareSpellChecker)
 (and_then (call PrepareCommitLint)
 (and_then (call PrepareLinter)
 (and_then (call PrepareFormatter)
 (and_then (call PrepareLintStaged)
 (and_then (call PrepareSemanticRelease)
           (call PrepareTest))))))))).

(** *** The flat view: one list of statements *)

Definition tagged (s : stage) : list (stage * effect) :=
  map (pair s) (body PROJECT_FOLDER s).

Definition pipeline : list (stage * effect) :=
  concat (map tagged all_stages).

(** The statements up to the end of function [s]. *)
Definition through (s : stage) : list (stage * effect) :=
  concat (map tagged (take (stage_number s) all_stages)).

Fixpoint exec (l : list (stage * effect)) : script :=
  match l with
  | [] => skip
  | (s, e) :: rest => and_then (await s e) (exec rest)
  end.

(** The world after the statements of [l], performed one after the
    other, each on the world its predecessor left. *)
Fixpoint after (l : list effect) (w : world) : result world error :=
  match l with
  | [] => Ok w
  | e :: rest =>
      match perform e w with
      | Ok w' => after rest w'
      | Threw err w' => Threw err w'
      end
  end.

End Script.

(** ** Reading a log *)

(** What a file holds: a text, or a JSON value together with the
    indentation it was serialised with. *)
Inductive content : Type :=
| Text (s : string)
| Json (obj : json) (spaces : nat).

(** The command lines of a log, in order. *)
Definition commands (l : list (stage * effect)) : list (list string) :=
  omap (fun x => match x.2 with sh argv => Some argv | _ => None end) l.

(** The files written by a log, in order: path as the script gives it,
    and content. *)
Definition writes (l : list (stage * effect)) : list (string * content) :=
  omap (fun x =>
          match x.2 with
          | writeFileSync p d => Some (p, Text d)
          | writeJSONSync p o n => Some (p, Json o n)
          | _ => None
          end) l.

(** The paths handed to [fs.ensureFileSync], in order. *)
Definition ensured (l : list (stage * effect)) : list string :=
  omap (fun x => match x.2 with ensureFileSync p => Some p | _ => None end) l.

Definition of_stage (s : stage) (l : list (stage * effect))
  : list (stage * effect) :=
  List.filter (fun x => bool_decide (x.1 = s)) l.

Definition words_eqb (a b : list string) : bool :=
  bool_decide (a = b).

Definition starts_with (pre argv : list string) : bool :=
  words_eqb pre (take (length pre) argv).

(** ** Paths

    A path is the list of its components from the root of the file
    system.  Symbolic links are not modelled.

    [resolve] is the place a path leads to when every directory it goes
    through is there: it cancels [x/..] by the text alone.  The platform
    follows a path one component at a time and looks up the directory
    it has reached before it reads the next component; [way] lists
    those directories, and the reference world below looks each of them
    up in the tree before it acts on what [resolve] returns. *)

Fixpoint split_on (sep : ascii) (s : string) : list string :=
  match s with
  | EmptyString => [EmptyString]
  | String c rest =>
      if Ascii.eqb c sep then EmptyString :: split_on sep rest
      else
        match split_on sep rest with
        | [] => [String c EmptyString]
        | w :: ws => String c w :: ws
        end
  end.

Definition split_slash (s : string) : list string := split_on "/"%char s.

Definition is_absolute (p : string) : bool :=
  match p with
  | String c _ => Ascii.eqb c "/"%char
  | EmptyString => false
  end.

Definition enter (acc : list string) (c : string) : list string :=
  if String.eqb c "" then acc
  else if String.eqb c "." then acc
  else if String.eqb c ".." then removelast acc
  else acc ++ [c].

Definition resolve (cwd : list string) (p : string) : list string :=
  foldl enter (if is_absolute p then [] else cwd) (split_slash p).

(** The directories in which the components [cs] are looked up, one
    after the other, starting in [acc].  An empty component (a doubled
    or a trailing slash) is skipped. *)
Fixpoint way_from (acc : list string) (cs : list string)
  : list (list string) :=
  match cs with
  | [] => []
  | c :: rest =>
      if String.eqb c "" then way_from acc rest
      else acc :: way_from (enter acc c) rest
  end.

Definition way (cwd : list string) (p : string) : list (list string) :=
  way_from (if is_absolute p then [] else cwd) (split_slash p).

(** A path that ends in a slash names a directory, if anything. *)
Fixpoint ends_in_slash (p : string) : bool :=
  match p with
  | EmptyString => false
  | String c EmptyString => Ascii.eqb c "/"%char
  | String _ rest => ends_in_slash rest
  end.

(** The file a path of the script names, whatever the working
    directory: the components below it. *)
Definition file_of (p : string) : list string := resolve [] p.

(** The last component that is not empty, as [rm] looks at it. *)
Definition base_name (p : string) : string :=
  List.last (List.filter (fun c => negb (String.eqb c "")) (split_slash p)) "".

(** The contents written to file [f], in order. *)
Definition written_to (f : list string) (l : list (stage * effect))
  : list content :=
  omap (fun pc => if bool_decide (file_of pc.1 = f) then Some pc.2 else None)
    (writes l).

Definition written_files (l : list (stage * effect)) : list (list string) :=
  map (fun pc => file_of pc.1) (writes l).

(** ** Reading a command line and a package specifier *)

(** The words of a command line that has no quoting in it. *)
Definition words (s : string) : list string := split_on " "%char s.

Definition is_install (argv : list string) : bool :=
  starts_with ["npm"; "install"] argv.

Definition installs (l : list (stage * effect)) : list (list string) :=
  List.filter is_install (commands l).

Fixpoint cut_at (sep : ascii) (s : string) : option (string * string) :=
  match s with
  | EmptyString => None
  | String c rest =>
      if Ascii.eqb c sep then Some (EmptyString, rest)
      else
        match cut_at sep rest with
        | Some (a, b) => Some (String c a, b)
        | None => None
        end
  end.

(** A package specifier as the package manager reads it: the name, and
    the version requested after the first [@] that is not the first
    character (a scoped name starts with [@]). *)
Definition package_spec (pkg : string) : string * option string :=
  match pkg with
  | EmptyString => (EmptyString, None)
  | String c rest =>
      match cut_at "@"%char rest with
      | Some (a, b) => (String c a, Some b)
      | None => (pkg, None)
      end
  end.

Definition pinned (pkg : string) : bool :=
  match (package_spec pkg).2 with
  | Some _ => true
  | None => false
  end.

(** ** A reference outside world

    A directory tree with a working directory.  The [fs] calls, [cd],
    [rm -rf] and [chmod a+x] act on it as the platform documents them;
    every other program (npm, git, npx) is a parameter.  Failures that
    do not follow from the tree (permissions, a full disk) are outside
    this model; the control-flow results above hold for them as well.

    The three statements that take the project name, [rm -rf],
    [fs.mkdirSync] and [cd], follow their path through the tree one
    component at a time ([blocked]) before they act on the place it
    leads to.  The other [fs] calls and [chmod a+x] are handed that
    place: the script names their files by literals made of plain
    names, which lead to the working directory followed by those
    names.  The working directory is a path, as zx keeps it. *)

Inductive node : Type :=
| Dir
| File (data : content) (executable : bool).

Inductive failure : Type :=
| SystemError (code : string)
| ExitCode (n : nat).

Record world : Type :=
  { cwd : list string;
    tree : gmap (list string) node }.

(** The root is always there. *)
Definition node_at (t : gmap (list string) node) (q : list string)
  : option node :=
  match q with
  | [] => Some Dir
  | _ => t !! q
  end.

Definition is_dir (t : gmap (list string) node) (q : list string) : bool :=
  match node_at t q with
  | Some Dir => true
  | _ => false
  end.

(** What lies at [q] and below. *)
Definition directory (q : list string) (t : gmap (list string) node)
  : gmap (list string) node :=
  filter (fun kv => q `prefix_of` kv.1) t.

Definition remove_tree (q : list string) (t : gmap (list string) node)
  : gmap (list string) node :=
  filter (fun kv => ¬ q `prefix_of` kv.1) t.

(** Two trees that hold the same at [q] and below. *)
Definition agree_below (q : list string) (t1 t2 : gmap (list string) node)
  : Prop :=
  forall p, q `prefix_of` p -> t1 !! p = t2 !! p.

(** A tree whose every entry lies in a directory, as on a disk. *)
Definition every_entry_in_a_directory (t : gmap (list string) node) : Prop :=
  forall k n, t !! k = Some n -> is_dir t (removelast k) = true.

(** Why a path cannot be followed: the first of the directories [ds]
    that is missing ([ENOENT]) or that is a file ([ENOTDIR]). *)
Fixpoint lookup_failure (t : gmap (list string) node)
    (ds : list (list string)) : option failure :=
  match ds with
  | [] => None
  | d :: rest =>
      match node_at t d with
      | Some Dir => lookup_failure t rest
      | Some (File _ _) => Some (SystemError "ENOTDIR")
      | None => Some (SystemError "ENOENT")
      end
  end.

(** What stops the platform on the way along [p], started in [dir]:
    nothing, when every directory on the way is there.  The empty path
    names nothing. *)
Definition blocked (t : gmap (list string) node) (dir : list string)
    (p : string) : option failure :=
  if String.eqb p "" then Some (SystemError "ENOENT")
  else lookup_failure t (way dir p).

(** The same in one pass, as the platform goes about it: from [acc],
    look up the directory reached, then read the next component.
    [follow_unless_blocked] below says that the place reached is the
    one [resolve] computes, and the failure the one of
    [lookup_failure]. *)
Fixpoint follow (t : gmap (list string) node) (acc cs : list string)
  : list string + failure :=
  match cs with
  | [] => inl acc
  | c :: rest =>
      if String.eqb c "" then follow t acc rest
      else
        match node_at t acc with
        | Some Dir =>
            follow t
              (if String.eqb c "." then acc
               else if String.eqb c ".." then removelast acc
               else acc ++ [c])
              rest
        | Some (File _ _) => inr (SystemError "ENOTDIR")
        | None => inr (SystemError "ENOENT")
        end
  end.

(** [fs.mkdirSync], not recursive: the path is followed first; a name
    that ends in a slash is created like one that does not. *)
Definition fs_mkdir (dir : list string) (p : string)
    (t : gmap (list string) node)
  : result (gmap (list string) node) failure :=
  match blocked t dir p with
  | Some err => Threw err t
  | None =>
      let q := resolve dir p in
      match node_at t q with
      | Some _ => Threw (SystemError "EEXIST") t
      | None =>
          if is_dir t (removelast q) then Ok (<[q := Dir]> t)
          else Threw (SystemError "ENOENT") t
      end
  end.

(** [process.chdir], which zx's [cd] calls: the directory to change
    to, or why there is none. *)
Definition fs_chdir (dir : list string) (p : string)
    (t : gmap (list string) node) : list string + failure :=
  match blocked t dir p with
  | Some err => inr err
  | None =>
      match node_at t (resolve dir p) with
      | Some Dir => inl (resolve dir p)
      | Some (File _ _) => inr (SystemError "ENOTDIR")
      | None => inr (SystemError "ENOENT")
      end
  end.

(** [fs.writeFileSync]: a new file is not executable, an existing one
    keeps its mode.  Every write of the script either follows the
    [fs.ensureFileSync] of its path or names a file of the working
    directory, so the directory a write can miss is the working
    directory itself. *)
Definition fs_write (q : list string) (data : content)
    (t : gmap (list string) node)
  : result (gmap (list string) node) failure :=
  match node_at t q with
  | Some Dir => Threw (SystemError "EISDIR") t
  | Some (File _ x) => Ok (<[q := File data x]> t)
  | None =>
      if is_dir t (removelast q) then Ok (<[q := File data false]> t)
      else Threw (SystemError "ENOENT") t
  end.

(** The recursive directory creation inside [fs.ensureFileSync]: walk
    down from [base], creating what is missing. *)
Fixpoint mkdirs_from (base todo : list string) (t : gmap (list string) node)
  : result (gmap (list string) node) failure :=
  match todo with
  | [] => Ok t
  | c :: rest =>
      let q := base ++ [c] in
      match node_at t q with
      | Some Dir => mkdirs_from q rest t
      | Some (File _ _) => Threw (SystemError "ENOTDIR") t
      | None => mkdirs_from q rest (<[q := Dir]> t)
      end
  end.

(** [fs.ensureFileSync]: nothing to do when the file is there; otherwise
    create the directories above it and write an empty file. *)
Definition fs_ensure_file (q : list string) (t : gmap (list string) node)
  : result (gmap (list string) node) failure :=
  match node_at t q with
  | Some (File _ _) => Ok t
  | _ =>
      match mkdirs_from [] (removelast q) t with
      | Ok t' => fs_write q (Text "") t'
      | Threw err t' => Threw err t'
      end
  end.

(** [rm -rf p].  With [-f] an operand that cannot be looked up is not
    an error and nothing is removed: a path that cannot be followed,
    and a regular file named with a trailing slash.  A directory is
    refused, with exit status 1, when it is the root or when the
    operand ends in [.] or [..]; any other directory goes with all that
    is below it, and so does a file.  Where the name is missing there is
    nothing to remove: in a tree whose every entry lies in a directory
    [remove_tree] leaves the tree as it is then ([remove_tree_missing]
    below). *)
Definition rm_rf (dir : list string) (p : string)
    (t : gmap (list string) node)
  : result (gmap (list string) node) failure :=
  match blocked t dir p with
  | Some _ => Ok t
  | None =>
      let q := resolve dir p in
      match node_at t q with
      | Some Dir =>
          if bool_decide (q = []) || String.eqb (base_name p) "."
             || String.eqb (base_name p) ".."
          then Threw (ExitCode 1) t
          else Ok (remove_tree q t)
      | Some (File _ _) =>
          if ends_in_slash p then Ok t else Ok (remove_tree q t)
      | None => Ok (remove_tree q t)
      end
  end.

(** [chmod a+x p]: the modes of directories are not modelled. *)
Definition chmod_a_x (q : list string) (t : gmap (list string) node)
  : result (gmap (list string) node) failure :=
  match node_at t q with
  | Some (File d _) => Ok (<[q := File d true]> t)
  | Some Dir => Ok t
  | None => Threw (ExitCode 1) t
  end.

(** Modelled from the spec: [printStep] of [./utils/steps.mjs] is not
    among the sources.  The spec says that the tool prints a
    human-readable status line before each stage; printing leaves the
    tree and the working directory as they are. *)
Definition print_step (msg : string) (w : world) : result world failure :=
  Ok w.

Section Reference.

(** A program other than [rm] and [chmod], started with the words
    [argv] in the working directory [dir]. *)
Variable tool :
  list string -> list string -> gmap (list string) node ->
  result (gmap (list string) node) failure.

Definition spawn (argv : list string) (dir : list string)
    (t : gmap (list string) node)
  : result (gmap (list string) node) failure :=
  match argv with
  | [c; f; p] =>
      if String.eqb c "rm" && String.eqb f "-rf"
      then rm_rf dir p t
      else if String.eqb c "chmod" && String.eqb f "a+x"
      then chmod_a_x (resolve dir p) t
      else tool argv dir t
  | _ => tool argv dir t
  end.

Definition in_place (w : world)
    (r : result (gmap (list string) node) failure)
  : result world failure :=
  match r with
  | Ok t => Ok {| cwd := cwd w; tree := t |}
  | Threw err t => Threw err {| cwd := cwd w; tree := t |}
  end.

(** The answer of the reference world to a statement.  [cd] changes the
    working directory of the script: the command lines that follow run
    there, and the relative paths of the [fs] calls that follow are
    resolved against it. *)
Definition posix (e : effect) (w : world) : result world failure :=
  match e with
  | printStep msg => print_step msg w
  | sh argv => in_place w (spawn argv (cwd w) (tree w))
  | mkdirSync p => in_place w (fs_mkdir (cwd w) p (tree w))
  | cd p =>
      match fs_chdir (cwd w) p (tree w) with
      | inl q => Ok {| cwd := q; tree := tree w |}
      | inr err => Threw err w
      end
  | ensureFileSync p =>
      in_place w (fs_ensure_file (resolve (cwd w) p) (tree w))
  | writeFileSync p d =>
      in_place w (fs_write (resolve (cwd w) p) (Text d) (tree w))
  | writeJSONSync p o n =>
      in_place w (fs_write (resolve (cwd w) p) (Json o n) (tree w))
  end.

(** A new process started where the first one was started, on the
    tree the first one left. *)
Definition again (w0 w1 : world) : world :=
  {| cwd := cwd w0; tree := tree w1 |}.

End Reference.

(** *** Statements that stay below the working directory *)

(** A relative path that never steps up. *)
Definition relative_down (p : string) : bool :=
  negb (is_absolute p)
  && forallb (fun c => negb (String.eqb c "..")) (split_slash p).

(** A statement that names, if anything, a file below the working
    directory, and that neither changes the working directory nor
    creates or removes a directory by name. *)
Definition confined (e : effect) : bool :=
  match e with
  | printStep _ => true
  | sh [c; f; p] =>
      if String.eqb c "rm" && String.eqb f "-rf" then false
      else if String.eqb c "chmod" && String.eqb f "a+x" then relative_down p
      else true
  | sh _ => true
  | mkdirSync _ => false
  | cd _ => false
  | ensureFileSync p => relative_down p
  | writeFileSync p _ => relative_down p
  | writeJSONSync p _ _ => relative_down p
  end.

(** The directories [mkdirs_from] walks through. *)
Fixpoint chain (base todo : list string) : list (list string) :=
  match todo with
  | [] => []
  | c :: rest => (base ++ [c]) :: chain (base ++ [c]) rest
  end.

(** What is assumed of npm, git and npx when two runs are compared:
    what a program leaves in the directory it was started in depends on
    its command line and on what it found there, not on the rest of the
    tree. *)
Definition tools_are_local
    (tool : list string -> list string -> gmap (list string) node ->
            result (gmap (list string) node) failure) : Prop :=
  forall argv dir t1 t2 t1' t2',
    directory dir t1 = directory dir t2 ->
    tool argv dir t1 = Ok t1' ->
    tool argv dir t2 = Ok t2' ->
    directory dir t1' = directory dir t2'.

(** ** Sample machines

    A home directory that holds a project folder from earlier, and three sets of programs: one where every
    program does its work, one where the registry cannot be reached, and
    one for an outside world without any state. *)

Definition home : world :=
  {| cwd := ["home"; "dev"];
     tree :=
       {[ ["home"] := Dir;
          ["home"; "dev"] := Dir;
          ["home"; "dev"; "my-app"] := Dir;
          ["home"; "dev"; "my-app"; "notes.txt"] := File (Text "old") false;
          ["home"; "dev"; "other"] := Dir ]} |}.

Definition tools_online (argv dir : list string)
    (t : gmap (list string) node)
  : result (gmap (list string) node) failure :=
  if starts_with ["npm"; "init"] argv
  then Ok (<[dir ++ ["package.json"] := File (Text "{}") false]> t)
  else if starts_with ["git"; "init"] argv
  then Ok (<[dir ++ [".git"] := Dir]> t)
  else if starts_with ["npx"; "--no-install"; "husky"] argv
  then Ok (<[dir ++ [".husky"] := Dir]> t)
  else Ok t.

Definition tools_offline (argv dir : list string)
    (t : gmap (list string) node)
  : result (gmap (list string) node) failure :=
  if starts_with ["npm"; "install"] argv then Threw (ExitCode 1) t
  else tools_online argv dir t.

Definition always_fine (e : effect) (u : unit) : result unit failure := Ok u.

(** ** More ways to read a statement *)

(** The path a statement creates, writes, or changes the mode of. *)
Definition target (e : effect) : option string :=
  match e with
  | ensureFileSync p => Some p
  | writeFileSync p _ => Some p
  | writeJSONSync p _ _ => Some p
  | sh [c; f; p] =>
      if String.eqb c "chmod" && String.eqb f "a+x" then Some p else None
  | _ => None
  end.

(** The path and content a statement writes. *)
Definition written (e : effect) : option (string * content) :=
  match e with
  | writeFileSync p d => Some (p, Text d)
  | writeJSONSync p o n => Some (p, Json o n)
  | _ => None
  end.

(** A statement that starts no program but [chmod a+x], and names a
    file below the working directory. *)
Definition fs_only (e : effect) : bool :=
  match e with
  | printStep _ => true
  | sh [c; f; p] =>
      String.eqb c "chmod" && String.eqb f "a+x" && relative_down p
  | sh _ => false
  | mkdirSync _ => false
  | cd _ => false
  | ensureFileSync p => relative_down p
  | writeFileSync p _ => relative_down p
  | writeJSONSync p _ _ => relative_down p
  end.

(** [e'] does not write the file [f]. *)
Definition spares (f : list string) (e' : effect) : bool :=
  match written e' with
  | Some (p', _) => negb (bool_decide (file_of p' = f))
  | None => true
  end.

(** No file is written twice. *)
Fixpoint overwrite_free (l : list effect) : bool :=
  match l with
  | [] => true
  | e :: rest =>
      match written e with
      | Some (p, _) => forallb (spares (file_of p)) rest
      | None => true
      end
      && overwrite_free rest
  end.

(** The paths written without an [fs.ensureFileSync] of the same path
    right before; [prev] is the statement before the list. *)
Fixpoint unguarded (prev : option effect) (l : list effect) : list string :=
  match l with
  | [] => []
  | e :: rest =>
      match written e, prev with
      | Some (p, _), Some (ensureFileSync p0) =>
          if String.eqb p0 p then [] else [p]
      | Some (p, _), _ => [p]
      | None, _ => []
      end
      ++ unguarded (Some e) rest
  end.

(** Every statement other than a status line comes after a status line
    of its own function; [seen] are the functions announced so far. *)
Fixpoint announced (seen : list stage) (l : list (stage * effect)) : bool :=
  match l with
  | [] => true
  | (s, printStep _) :: rest => announced (s :: seen) rest
  | (s, _) :: rest => bool_decide (s ∈ seen) && announced seen rest
  end.

(** Outside [q], the tree [t'] is the tree [t], up to directories on
    the way down to [q] that were missing in [t]. *)
Definition changed_only_below (q : list string)
    (t t' : gmap (list string) node) : Prop :=
  forall p,
    ¬ q `prefix_of` p ->
    t' !! p = t !! p
    \/ (t !! p = None /\ t' !! p = Some Dir /\ p `prefix_of` q).

(** What may be assumed of npm, git and npx: whether it settles or
    fails, a program leaves alone what is not below the directory it was
    started in. *)
Definition tools_stay_inside
    (tool : list string -> list string -> gmap (list string) node ->
            result (gmap (list string) node) failure) : Prop :=
  forall argv dir t p,
    ¬ dir `prefix_of` p ->
    state_of (tool argv dir t) !! p = t !! p.

(** A program that settles leaves the files [files] of its working
    directory as they are. *)
Definition tools_keep (files : list (list string))
    (tool : list string -> list string -> gmap (list string) node ->
            result (gmap (list string) node) failure) : Prop :=
  forall argv dir t u f,
    f ∈ files ->
    tool argv dir t = Ok u ->
    u !! (dir ++ f) = t !! (dir ++ f).

(** What a statement of [fs_only] kind, issued in directory [dir], may
    have done to the node at [k]: a directory is still a directory; a
    file is still a file, still executable if it was, with the same
    content unless the statement wrote that very file. *)
Definition node_kept (e : effect) (dir k : list string)
    (t t' : gmap (list string) node) : Prop :=
  match node_at t k with
  | Some Dir => node_at t' k = Some Dir
  | Some (File d x) =>
      exists d' x',
        node_at t' k = Some (File d' x')
        /\ (x = true -> x' = true)
        /\ (d' = d \/ exists p, written e = Some (p, d') /\ resolve dir p = k)
  | None => True
  end.

(** The state in which a statement has nothing left to do. *)
Definition nothing_to_do (e : effect) (w : world) : Prop :=
  match target e with
  | None => True
  | Some p =>
      match node_at (tree w) (resolve (cwd w) p), e with
      | Some (File d x), ensureFileSync _ => True
      | Some (File d x), sh _ => x = true
      | Some (File d x), _ => exists p', written e = Some (p', d)
      | Some Dir, sh _ => True
      | _, _ => False
      end
  end.

(** The project folder of the sample home, as a working directory. *)
Definition in_project : world :=
  {| cwd := ["home"; "dev"; "my-app"]; tree := tree home |}.

(** Programs of which [git init] loses the directory it was started
    in, and programs of which the last [npm set-script] puts a regular
    file in the place of that directory.  Both leave alone what is not
    below the directory they were started in. *)
Definition tools_adrift (argv dir : list string)
    (t : gmap (list string) node)
  : result (gmap (list string) node) failure :=
  if starts_with ["git"; "init"] argv then Ok (remove_tree dir t)
  else tools_online argv dir t.

Definition tools_replacing (argv dir : list string)
    (t : gmap (list string) node)
  : result (gmap (list string) node) failure :=
  if starts_with ["npm"; "set-script"; "test"] argv
  then Ok (<[dir := File (Text "") false]> (remove_tree dir t))
  else tools_online argv dir t.

(** * Facts *)

(** ** Checks on sample inputs *)

Example resolve_hook_path :
  resolve ["home"; "dev"] "./.husky/commit-msg"
  = ["home"; "dev"; ".husky"; "commit-msg"].
Proof. reflexivity. Qed.

Example resolve_steps_up :
  resolve ["home"; "dev"] "../x//y/" = ["home"; "x"; "y"].
Proof. reflexivity. Qed.

Example package_spec_scoped :
  package_spec "@commitlint/cli" = ("@commitlint/cli", None).
Proof. reflexivity. Qed.

Example package_spec_range :
  package_spec "eslint@^8.2.0" = ("eslint", Some "^8.2.0").
Proof. reflexivity. Qed.

Example way_of_a_nested_name :
  way ["home"; "dev"] "./apps/web"
  = [["home"; "dev"]; ["home"; "dev"]; ["home"; "dev"; "apps"]].
Proof. reflexivity. Qed.

Example way_steps_up_through_the_name :
  way ["home"; "dev"] "./ghost/../my-app"
  = [["home"; "dev"]; ["home"; "dev"]; ["home"; "dev"; "ghost"]; ["home"; "dev"]].
Proof. reflexivity. Qed.

Example rm_skips_what_it_cannot_look_up :
  rm_rf ["home"; "dev"] "./sub/.." (tree home) = Ok (tree home)
  /\ rm_rf ["home"; "dev"] "./ghost/../my-app" (tree home) = Ok (tree home)
  /\ rm_rf ["home"; "dev"] "./my-app/notes.txt/" (tree home) = Ok (tree home).
Proof. repeat split; vm_compute; reflexivity. Qed.

Example rm_removes_a_file_and_a_directory :
  rm_rf ["home"; "dev"] "./my-app/notes.txt" (tree home)
  = Ok (delete ["home"; "dev"; "my-app"; "notes.txt"] (tree home))
  /\ rm_rf ["home"; "dev"] "./my-app/" (tree home)
     = Ok {[ ["home"] := Dir;
             ["home"; "dev"] := Dir;
             ["home"; "dev"; "other"] := Dir ]}.
Proof. split; vm_compute; reflexivity. Qed.

Example mkdir_errors :
  error_of (fs_mkdir ["home"; "dev"] "./my-app/notes.txt/../y/z" (tree home))
  = Some (SystemError "ENOTDIR")
  /\ error_of (fs_mkdir ["home"; "dev"] "./ghost/../my-app" (tree home))
     = Some (SystemError "ENOENT")
  /\ error_of (fs_mkdir ["home"; "dev"] "./apps/web" (tree home))
     = Some (SystemError "ENOENT")
  /\ error_of (fs_mkdir ["home"; "dev"] "./my-app/notes.txt/" (tree home))
     = Some (SystemError "EEXIST")
  /\ error_of (fs_mkdir ["home"; "dev"] "./other/" (tree home))
     = Some (SystemError "EEXIST")
  /\ succeeded (fs_mkdir ["home"; "dev"] "./new/" (tree home)) = true.
Proof. repeat split; vm_compute; reflexivity. Qed.

Example home_is_a_tree : every_entry_in_a_directory (tree home).
Proof.
  assert (H : map_Forall
                (fun k _ => is_dir (tree home) (removelast k) = true)
                (tree home))
    by (apply (bool_decide_unpack _); vm_compute; exact I).
  intros k n Hk. exact (H k n Hk).
Qed.

Example rm_refuses_dot :
  rm_rf ["home"; "dev"] "./." (tree home) = Threw (ExitCode 1) (tree home).
Proof. reflexivity. Qed.

Example hook_first_lines :
  take 2 (split_on (ascii_of_nat 10) commit_msg_hook)
  = [ "#!/bin/sh";
      ". " +:+ dq +:+ "$(dirname " +:+ dq +:+ "$0" +:+ dq +:+ ")/_/husky.sh"
        +:+ dq ].
Proof. reflexivity. Qed.

Example sample_run_completes :
  exit_status (main "my-app" (posix tools_online) (start home)) = 0
  /\ length (log (state_of (main "my-app" (posix tools_online) (start home))))
     = 44.
Proof. vm_compute. done. Qed.

Example sample_run_drops_old_files :
  tree home !! ["home"; "dev"; "my-app"; "notes.txt"]
  = Some (File (Text "old") false)
  /\ tree (env (state_of (main "my-app" (posix tools_online) (start home))))
       !! ["home"; "dev"; "my-app"; "notes.txt"] = None
  /\ tree (env (state_of (main "my-app" (posix tools_online) (start home))))
       !! ["home"; "dev"; "other"] = Some Dir.
Proof. vm_compute. done. Qed.

Example sample_run_offline :
  exit_status (main "my-app" (posix tools_offline) (start home)) = 1
  /\ length (log (state_of (main "my-app" (posix tools_offline) (start home))))
     = 9.
Proof. vm_compute. done. Qed.

Lemma settled_state {S E} (r : result S E) :
  succeeded r = true -> r = Ok (state_of r).
Proof. by destruct r. Qed.

Lemma thrown_state {S E} (r : result S E) (err : E) :
  error_of r = Some err -> r = Threw err (state_of r).
Proof. destruct r; cbn; congruence. Qed.

Section ScriptFacts.

Context {W E : Type}.
Variable perform : effect -> W -> result W E.

Lemma block_exec s stmts r :
  block perform s stmts r = exec perform (map (pair s) stmts) r.
Proof.
  revert r. induction stmts as [|e rest IH]; intros r; [reflexivity|].
  cbn. unfold and_then. destruct (await perform s e r);
    [apply IH | reflexivity].
Qed.

Lemma exec_app l1 l2 r :
  exec perform (l1 ++ l2) r
  = and_then (exec perform l1) (exec perform l2) r.
Proof.
  revert r. induction l1 as [|[s e] rest IH]; intros r; [reflexivity|].
  cbn. unfold and_then in *. destruct (await perform s e r);
    [apply IH | reflexivity].
Qed.

Lemma call_last P s r :
  call P perform s r = exec perform (tagged P s ++ []) r.
Proof. unfold call, tagged. rewrite app_nil_r. apply block_exec. Qed.

Lemma call_then P s k l :
  (forall r, k r = exec perform l r) ->
  forall r, and_then (call P perform s) k r
            = exec perform (tagged P s ++ l) r.
Proof.
  intros Hk r. rewrite exec_app. unfold and_then, call, tagged.
  rewrite block_exec. destruct (exec _ _ r); [apply Hk | reflexivity].
Qed.

(** The ten awaited calls are the statements of the ten bodies, run
    one after the other. *)
Lemma main_exec P r : main P perform r = exec perform (pipeline P) r.
Proof.
  revert r. unfold main, pipeline, all_stages. cbn [map concat].
  repeat apply call_then. apply call_last.
Qed.

(** A list of statements that settles has issued all of them, each on
    the world its predecessor left. *)
Lemma exec_settles l r r' :
  exec perform l r = Ok r' ->
  log r' = log r ++ l /\ after perform (map snd l) (env r) = Ok (env r').
Proof.
  revert r. induction l as [|[s e] rest IH]; intros r H; cbn in H.
  - injection H as <-. by rewrite app_nil_r.
  - unfold and_then, await in H. cbn.
    destruct (perform e (env r)) as [w|err w]; [|discriminate].
    apply IH in H as [Hlog Hw]. cbn in *.
    split; [by rewrite Hlog, <- app_assoc | done].
Qed.

(** A list of statements that throws stopped at its first failing
    statement. *)
Lemma exec_throws l r err r' :
  exec perform l r = Threw err r' ->
  exists pre e post w1,
    l = pre ++ e :: post
    /\ after perform (map snd pre) (env r) = Ok w1
    /\ perform e.2 w1 = Threw err (env r')
    /\ log r' = log r ++ pre ++ [e].
Proof.
  revert r. induction l as [|[s e] rest IH]; intros r H; cbn in H;
    [discriminate|].
  unfold and_then, await in H.
  destruct (perform e (env r)) as [w|err' w] eqn:Hp.
  - apply IH in H as (pre & e' & post & w1 & -> & Hpre & He & Hlog).
    exists ((s, e) :: pre), e', post, w1. cbn in *. rewrite Hp.
    repeat split; try done. by rewrite Hlog, <- app_assoc.
  - injection H as <- <-. exists [], (s, e), rest, (env r). cbn.
    repeat split; done.
Qed.

Lemma exec_fails_at pre e post r w1 err w2 :
  after perform (map snd pre) (env r) = Ok w1 ->
  perform e.2 w1 = Threw err w2 ->
  exec perform (pre ++ e :: post) r
  = Threw err {| env := w2; log := log r ++ pre ++ [e] |}.
Proof.
  revert r. induction pre as [|[s x] pre IH]; intros r Hpre He; cbn in *.
  - injection Hpre as <-. destruct e as [s x]. cbn in *.
    unfold and_then, await. by rewrite He.
  - unfold and_then, await.
    destruct (perform x (env r)) as [w|]; [|discriminate].
    rewrite (IH {| env := w; log := log r ++ [(s, x)] |} Hpre He). cbn.
    by rewrite <- app_assoc.
Qed.

Lemma after_app l1 l2 w w' :
  after perform (l1 ++ l2) w = Ok w' ->
  exists w1, after perform l1 w = Ok w1 /\ after perform l2 w1 = Ok w'.
Proof.
  revert w. induction l1 as [|x l1 IH]; intros w H; cbn in *; [eauto|].
  destruct (perform x w); [eauto | discriminate].
Qed.

End ScriptFacts.

(** The stages along the pipeline never go back. *)
Lemma pipeline_sorted P :
  StronglySorted le (map (fun x => stage_number x.1) (pipeline P)).
Proof. cbn. repeat (constructor; [|repeat constructor; lia]). constructor. Qed.

Lemma sorted_before {A} (f : A -> nat) pre e post :
  StronglySorted le (map f (pre ++ e :: post)) ->
  Forall (fun x => f x <= f e) (pre ++ [e]).
Proof.
  rewrite map_app. cbn. intros H. apply Forall_app. split.
  - apply Forall_forall. intros x Hx.
    eapply (StronglySorted_app_1_elem_of le); [exact H | |left].
    by apply list_elem_of_fmap_2.
  - by repeat constructor.
Qed.

(** ** The order of the stages *)

(** C1.  In every run, whatever the outside world answers, the
    statements issued are an initial part of one fixed list: the
    statements of [prepare], then those of [installDependencies], of
    [prepareHusky], [prepareSpellChecker], [prepareCommitLint],
    [prepareLinter], [prepareFormatter], [prepareLintStaged],
    [prepareSemanticRelease] and [prepareTest].  Stage numbers never
    decrease along that list, so no statement of a stage is issued
    before the last statement of the stage before it, and the stages
    met along it are the ten, each once.  A run that
    completes has issued the whole list, and its final world is the one
    obtained by performing the statements one at a time, each on the
    world its predecessor left behind; a run that throws has issued a
    proper, non-empty initial part. *)
Theorem stages_run_in_fixed_order {W E : Type} (P : string)
    (perform : effect -> W -> result W E) (w : W) :
  pipeline P
  = tagged P Prepare ++ tagged P InstallDependencies ++ tagged P PrepareHusky
    ++ tagged P PrepareSpellChecker ++ tagged P PrepareCommitLint
    ++ tagged P PrepareLinter ++ tagged P PrepareFormatter
    ++ tagged P PrepareLintStaged ++ tagged P PrepareSemanticRelease
    ++ tagged P PrepareTest
  /\ StronglySorted le (map (fun x => stage_number x.1) (pipeline P))
  /\ remove_dups (map fst (pipeline P)) = all_stages
  /\ match main P perform (start w) with
     | Ok r =>
         log r = pipeline P
         /\ after perform (map snd (pipeline P)) w = Ok (env r)
     | Threw _ r =>
         exists n, n < length (pipeline P) /\ log r = take (S n) (pipeline P)
     end.
Proof.
  split; [reflexivity|]. split; [apply pipeline_sorted|].
  split; [reflexivity|].
  rewrite main_exec. destruct (exec _ _ _) as [r|err r] eqn:H.
  - by apply exec_settles in H.
  - apply exec_throws in H as (pre & e & post & w1 & Hl & _ & _ & Hlog).
    exists (length pre). rewrite Hl, Hlog. cbn. split.
    + rewrite length_app. cbn. lia.
    + replace (pre ++ e :: post) with ((pre ++ [e]) ++ post)
        by (by rewrite <- app_assoc).
      rewrite take_app_length'; [done|].
      rewrite length_app. cbn. lia.
Qed.

(** ** The first failure *)

(** C2.  When the statements before some statement [e] of the pipeline
    settle and [e] fails with [err], the run throws that very [err] and
    ends with a non-zero exit status.  The log ends with [e]: nothing is
    issued after it, in particular nothing of a later stage, and when
    [e] belongs to [installDependencies] the log holds statements of
    [prepare] and [installDependencies] only.  The final world is the
    world as the failing statement left it: no statement is issued to
    undo what the earlier ones created. *)
Theorem first_failure_aborts_run {W E : Type} (P : string)
    (perform : effect -> W -> result W E) (w : W)
    (pre post : list (stage * effect)) (e : stage * effect)
    (w1 w2 : W) (err : E) :
  pipeline P = pre ++ e :: post ->
  after perform (map snd pre) w = Ok w1 ->
  perform e.2 w1 = Threw err w2 ->
  main P perform (start w) = Threw err {| env := w2; log := pre ++ [e] |}
  /\ exit_status (main P perform (start w)) <> 0
  /\ Forall (fun x => stage_number x.1 <= stage_number e.1) (pre ++ [e])
  /\ (e.1 = InstallDependencies ->
      Forall (fun x => x.1 = Prepare \/ x.1 = InstallDependencies)
        (pre ++ [e])).
Proof.
  intros Hl Hpre He.
  assert (Hmain : main P perform (start w)
                  = Threw err {| env := w2; log := pre ++ [e] |}).
  { rewrite main_exec, Hl. by apply exec_fails_at with (w1 := w1). }
  assert (Hle : Forall (fun x => stage_number x.1 <= stage_number e.1)
                  (pre ++ [e])).
  { apply (sorted_before (fun x => stage_number x.1) pre e post).
    rewrite <- Hl. apply pipeline_sorted. }
  split; [exact Hmain|]. split; [by rewrite Hmain|]. split; [exact Hle|].
  intros Hs. rewrite Hs in Hle. eapply Forall_impl; [exact Hle|].
  intros [s x]. cbn. destruct s; cbn; intros; auto; lia.
Qed.

(** The registry cannot be reached: [npm install] exits with 1 and the
    run stops there. *)
Lemma first_failure_aborts_run_witness :
  error_of (main "my-app" (posix tools_offline) (start home))
  = Some (ExitCode 1)
  /\ log (state_of (main "my-app" (posix tools_offline) (start home)))
     = take 9 (pipeline "my-app")
  /\ exit_status (main "my-app" (posix tools_offline) (start home)) <> 0.
Proof.
  set (w1 := state_of (after (posix tools_offline)
                         (map snd (take 8 (pipeline "my-app"))) home)).
  set (e := (InstallDependencies,
             sh (["npm"; "install"; "--save-dev"] ++ devDependencies))).
  destruct
    (first_failure_aborts_run "my-app" (posix tools_offline) home
       (take 8 (pipeline "my-app")) (drop 9 (pipeline "my-app")) e
       w1 (state_of (posix tools_offline e.2 w1)) (ExitCode 1))
    as (Hmain & Hexit & _).
  - vm_compute. reflexivity.
  - apply settled_state. vm_compute. reflexivity.
  - apply thrown_state. vm_compute. reflexivity.
  - rewrite Hmain. cbn [error_of state_of log].
    split; [reflexivity|]. split; [vm_compute; reflexivity | exact Hexit].
Defined.

(** ** What a completed run has issued *)

Lemma completed_log {W E : Type} (P : string)
    (perform : effect -> W -> result W E) (w : W) (r : run W) :
  main P perform (start w) = Ok r -> log r = pipeline P.
Proof. rewrite main_exec. intros H. by apply exec_settles in H as [-> _]. Qed.

Lemma thrown_log {W E : Type} (P : string)
    (perform : effect -> W -> result W E) (w : W) (r : run W) (err : E) :
  main P perform (start w) = Threw err r ->
  exists n, log r = take n (pipeline P).
Proof.
  intros H. rewrite main_exec in H.
  apply exec_throws in H as (pre & e & post & w1 & Hl & _ & _ & Hlog).
  exists (S (length pre)). rewrite Hl, Hlog. cbn.
  replace (pre ++ e :: post) with ((pre ++ [e]) ++ post)
    by (by rewrite <- app_assoc).
  rewrite take_app_length'; [done|]. rewrite length_app. cbn. lia.
Qed.

Lemma installs_app l1 l2 : installs (l1 ++ l2) = installs l1 ++ installs l2.
Proof.
  unfold installs, commands. by rewrite omap_app, List.filter_app.
Qed.

Lemma installs_take n l :
  exists rest, installs l = installs (take n l) ++ rest.
Proof.
  exists (installs (drop n l)). by rewrite <- installs_app, take_drop.
Qed.

(** ** The generated files *)

(** C3, as stated, fails: on a machine where every statement settles,
    the run completes and the files it has written are not ten. *)
Lemma ten_artifacts_refuted :
  ~ (forall r : run unit,
       main "my-app" always_fine (start ()) = Ok r ->
       length (remove_dups (written_files (log r))) = 10).
Proof.
  intros H.
  assert (Hr : main "my-app" always_fine (start ())
               = Ok (state_of (main "my-app" always_fine (start ()))))
    by (vm_compute; reflexivity).
  apply H in Hr. vm_compute in Hr. discriminate.
Qed.

(** C3, amended.  A run that completes has written exactly twelve files:
    the ten configuration files and the two hook scripts
    [.husky/commit-msg] and [.husky/pre-commit].  Each is written once,
    with the content the script embeds, in this order; the twelve paths
    name twelve different files, and each of them lies below the working
    directory of the moment, which is the new project directory since
    the [cd] of [prepare] comes before the first write.  The files that
    [fs.ensureFileSync] may create are among the twelve. *)
Theorem twelve_artifacts_written {W E : Type} (P : string)
    (perform : effect -> W -> result W E) (w : W) (r : run W) :
  main P perform (start w) = Ok r ->
  writes (log r)
  = [ (".gitignore", Text "node_modules");
      ("./cspell.json", Json cspell_json 2);
      ("commitlint.config.js", Text commitlint_config_js);
      ("./.husky/commit-msg", Text commit_msg_hook);
      ("./.eslintrc.js", Text eslintrc_js);
      ("./.eslintignore", Text eslintignore);
      ("./.prettierrc", Text prettierrc);
      ("./.prettierignore", Text "node_modules/**");
      ("./.lintstagedrc", Json lintstagedrc 2);
      ("./.husky/pre-commit", Text pre_commit_hook);
      (".releaserc.json", Json releaserc_json 2);
      ("./jest.config.js", Text jest_config_js) ]
  /\ written_files (log r)
     = [ [".gitignore"]; ["cspell.json"]; ["commitlint.config.js"];
         [".husky"; "commit-msg"]; [".eslintrc.js"]; [".eslintignore"];
         [".prettierrc"]; [".prettierignore"]; [".lintstagedrc"];
         [".husky"; "pre-commit"]; [".releaserc.json"]; ["jest.config.js"] ]
  /\ NoDup (written_files (log r))
  /\ length (written_files (log r)) = 12
  /\ (forall dir : list string,
        map (fun pc => resolve dir pc.1) (writes (log r))
        = map (app dir) (written_files (log r)))
  /\ (exists before rest,
        log r = before ++ (Prepare, cd ("./" +:+ P)) :: rest
        /\ writes before = [] /\ ensured before = [])
  /\ Forall (fun p => file_of p ∈ written_files (log r)) (ensured (log r)).
Proof.
  intros H. rewrite (completed_log _ _ _ _ H).
  split; [vm_compute; reflexivity|].
  assert (Hfiles : written_files (pipeline P)
     = [ [".gitignore"]; ["cspell.json"]; ["commitlint.config.js"];
         [".husky"; "commit-msg"]; [".eslintrc.js"]; [".eslintignore"];
         [".prettierrc"]; [".prettierignore"]; [".lintstagedrc"];
         [".husky"; "pre-commit"]; [".releaserc.json"]; ["jest.config.js"] ])
    by (vm_compute; reflexivity).
  split; [exact Hfiles|]. rewrite Hfiles.
  split; [apply (bool_decide_unpack _); vm_compute; exact I|].
  split; [reflexivity|]. split.
  - intros dir. cbn. unfold resolve, enter. cbn.
    by rewrite <- !app_assoc.
  - split; [by exists (take 3 (pipeline P)), (drop 4 (pipeline P))|].
    apply (bool_decide_unpack _). vm_compute. exact I.
Qed.

Lemma twelve_artifacts_written_witness :
  length (written_files (log (state_of (main "my-app" (posix tools_online)
                                          (start home))))) = 12.
Proof.
  assert (Hrun : main "my-app" (posix tools_online) (start home)
                 = Ok (state_of (main "my-app" (posix tools_online)
                                   (start home))))
    by (apply settled_state; vm_compute; reflexivity).
  pose proof (twelve_artifacts_written "my-app" (posix tools_online) home
                _ Hrun) as (_ & _ & _ & Hlen & _).
  exact Hlen.
Defined.

(** ** The installed packages *)

(** C4.  In every run there is at most one [npm install] command line,
    and it is [npm install --save-dev] followed by the dependency list,
    nothing more and nothing less; a run that completes has issued it
    exactly once, and it is the only command line of the install stage.
    The list has twenty-one different entries.  Read as package
    specifiers, three of them request a version, written exactly
    [latest], [^2.25.2] and [^8.2.0], and the other eighteen request
    none. *)
Theorem install_list_is_exact {W E : Type} (P : string)
    (perform : effect -> W -> result W E) (w : W) :
  match main P perform (start w) with
  | Ok r =>
      installs (log r) = [["npm"; "install"; "--save-dev"] ++ devDependencies]
  | Threw _ r =>
      installs (log r) = []
      \/ installs (log r)
         = [["npm"; "install"; "--save-dev"] ++ devDependencies]
  end
  /\ commands (tagged P InstallDependencies)
     = [["npm"; "install"; "--save-dev"] ++ devDependencies]
  /\ NoDup devDependencies
  /\ map package_spec devDependencies
     = [ ("@commitlint/cli", None);
         ("@commitlint/config-conventional", None);
         ("@semantic-release/changelog", None);
         ("@semantic-release/git", None);
         ("@types/jest", None);
         ("cspell", None);
         ("eslint-config-airbnb-base", Some "latest");
         ("eslint-config-prettier", None);
         ("eslint-plugin-import", Some "^2.25.2");
         ("eslint-plugin-markdownlint", None);
         ("eslint-plugin-prettier", None);
         ("eslint", Some "^8.2.0");
         ("husky", None);
         ("imagemin-lint-staged", None);
         ("jest", None);
         ("lint-staged", None);
         ("markdownlint", None);
         ("markdownlint-cli", None);
         ("nodemon", None);
         ("prettier", None);
         ("semantic-release", None) ]
  /\ List.filter pinned devDependencies
     = [ "eslint-config-airbnb-base@latest";
         "eslint-plugin-import@^2.25.2";
         "eslint@^8.2.0" ].
Proof.
  assert (Hall : installs (pipeline P)
                 = [["npm"; "install"; "--save-dev"] ++ devDependencies])
    by (vm_compute; reflexivity).
  split; [|split; [reflexivity|split;
     [apply (bool_decide_unpack _); vm_compute; exact I
     |split; vm_compute; reflexivity]]].
  destruct (main P perform (start w)) as [r|err r] eqn:H.
  - by rewrite (completed_log _ _ _ _ H).
  - apply thrown_log in H as [n ->].
    destruct (installs_take n (pipeline P)) as [rest Hrest].
    rewrite Hall in Hrest.
    destruct (installs (take n (pipeline P))) as [|c [|c' l]]; [by left|..].
    + right. by injection Hrest as <- _.
    + discriminate.
Qed.

(** ** The release configuration *)

(** C6.  A run that completes has written [.releaserc.json] once, in
    the release stage.  Its [plugins] are the commit analyzer, the
    release-notes generator, the changelog plugin and the git plugin, in
    this order, and the git plugin carries the option [message] with the
    text [chore(release): ${nextRelease.version}], dollar and braces
    included.  The command lines of the stage are the two
    [npm set-script] invocations that register [release] and
    [release:dry]. *)
Theorem release_configuration {W E : Type} (P : string)
    (perform : effect -> W -> result W E) (w : W) (r : run W) :
  main P perform (start w) = Ok r ->
  exists cfg,
    written_to [".releaserc.json"] (log r) = [Json cfg 2]
    /\ writes (of_stage PrepareSemanticRelease (log r))
       = [(".releaserc.json", Json cfg 2)]
    /\ get "plugins" cfg
       = Some
           (JArr
              [ JStr "@semantic-release/commit-analyzer";
                JStr "@semantic-release/release-notes-generator";
                JStr "@semantic-release/changelog";
                JArr
                  [ JStr "@semantic-release/git";
                    JObj
                      [ ("message",
                          JStr "chore(release): ${nextRelease.version}") ] ] ])
    /\ commands (of_stage PrepareSemanticRelease (log r))
       = [ ["npm"; "set-script"; "release"; "semantic-release"];
           ["npm"; "set-script"; "release:dry"; "semantic-release --dry-run"] ].
Proof.
  intros H. rewrite (completed_log _ _ _ _ H). exists releaserc_json.
  repeat split; vm_compute; reflexivity.
Qed.

Lemma release_configuration_witness :
  exists cfg,
    written_to [".releaserc.json"]
      (log (state_of (main "my-app" (posix tools_online) (start home))))
    = [Json cfg 2]
    /\ get "repositoryUrl" cfg = Some (JStr "REPLACE ME").
Proof.
  destruct (release_configuration "my-app" (posix tools_online) home
              (state_of (main "my-app" (posix tools_online) (start home))))
    as (cfg & Hcfg & _).
  - apply settled_state. vm_compute. reflexivity.
  - exists cfg. split; [exact Hcfg|].
    vm_compute in Hcfg. injection Hcfg as <-. reflexivity.
Defined.

(** ** The staged-file mapping *)

(** C9.  A run that completes has written [.lintstagedrc] once, in
    stage 8, and the mapping written there sends the key [*.md] to
    [markdownlint --fix --ignore CHANGELOG.md]. *)
Theorem staged_markdown_entry {W E : Type} (P : string)
    (perform : effect -> W -> result W E) (w : W) (r : run W) :
  main P perform (start w) = Ok r ->
  exists mapping,
    written_to [".lintstagedrc"] (log r) = [Json mapping 2]
    /\ written_to [".lintstagedrc"] (of_stage PrepareLintStaged (log r))
       = [Json mapping 2]
    /\ stage_number PrepareLintStaged = 8
    /\ ("*.md" ∈ keys mapping)
    /\ get "*.md" mapping
       = Some (JStr "markdownlint --fix --ignore CHANGELOG.md").
Proof.
  intros H. rewrite (completed_log _ _ _ _ H). exists lintstagedrc.
  split; [vm_compute; reflexivity|]. split; [vm_compute; reflexivity|].
  split; [reflexivity|]. split; [|reflexivity].
  cbn. set_solver.
Qed.

Lemma staged_markdown_entry_witness :
  exists mapping,
    written_to [".lintstagedrc"]
      (log (state_of (main "my-app" (posix tools_online) (start home))))
    = [Json mapping 2]
    /\ get "*.md" mapping
       = Some (JStr "markdownlint --fix --ignore CHANGELOG.md").
Proof.
  destruct (staged_markdown_entry "my-app" (posix tools_online) home
              (state_of (main "my-app" (posix tools_online) (start home))))
    as (mapping & Hw & _ & _ & _ & Hmd).
  - apply settled_state. vm_compute. reflexivity.
  - exists mapping. split; [exact Hw | exact Hmd].
Defined.

(** C10.  In the mapping written by a run that completes, the [*.scss]
    entry is the pair of command lines
    [postcss --config path/to/your/config --replace] and [stylelint]:
    the first starts the program [postcss] with the placeholder
    [path/to/your/config] as its configuration path, the second starts
    [stylelint].  The only install command line of the run is the one of
    the install stage, and no package of its list is named [postcss] or
    [stylelint]. *)
Theorem staged_scss_entry_uses_uninstalled_tools {W E : Type} (P : string)
    (perform : effect -> W -> result W E) (w : W) (r : run W) :
  main P perform (start w) = Ok r ->
  exists mapping,
    written_to [".lintstagedrc"] (log r) = [Json mapping 2]
    /\ get "*.scss" mapping
       = Some
           (JArr
              [ JStr "postcss --config path/to/your/config --replace";
                JStr "stylelint" ])
    /\ words "postcss --config path/to/your/config --replace"
       = ["postcss"; "--config"; "path/to/your/config"; "--replace"]
    /\ words "stylelint" = ["stylelint"]
    /\ installs (log r)
       = [["npm"; "install"; "--save-dev"] ++ devDependencies]
    /\ ("postcss" ∉ map (fun pkg => (package_spec pkg).1) devDependencies)
    /\ ("stylelint" ∉ map (fun pkg => (package_spec pkg).1) devDependencies)
    /\ ("postcss" ∉ devDependencies)
    /\ ("stylelint" ∉ devDependencies).
Proof.
  intros H. rewrite (completed_log _ _ _ _ H). exists lintstagedrc.
  do 5 (split; [vm_compute; reflexivity|]).
  repeat split; apply (bool_decide_unpack _); vm_compute; exact I.
Qed.

Lemma staged_scss_entry_uses_uninstalled_tools_witness :
  exists mapping,
    written_to [".lintstagedrc"]
      (log (state_of (main "my-app" (posix tools_online) (start home))))
    = [Json mapping 2]
    /\ get "*.scss" mapping
       = Some
           (JArr
              [ JStr "postcss --config path/to/your/config --replace";
                JStr "stylelint" ]).
Proof.
  destruct (staged_scss_entry_uses_uninstalled_tools "my-app"
              (posix tools_online) home
              (state_of (main "my-app" (posix tools_online) (start home))))
    as (mapping & Hw & Hscss & _).
  - apply settled_state. vm_compute. reflexivity.
  - exists mapping. split; [exact Hw | exact Hscss].
Defined.

(** ** What the log of a run can be *)

Lemma log_is_initial_part {W E : Type} (P : string)
    (perform : effect -> W -> result W E) (w : W) :
  log (state_of (main P perform (start w))) `prefix_of` pipeline P.
Proof.
  destruct (main P perform (start w)) as [r|err r] eqn:H; cbn.
  - by rewrite (completed_log _ _ _ _ H).
  - apply thrown_log in H as [n ->]. apply prefix_take.
Qed.

(** ** The reference world *)

Section ReferenceFacts.

Variable tool :
  list string -> list string -> gmap (list string) node ->
  result (gmap (list string) node) failure.

Lemma in_place_settles w r w' :
  in_place w r = Ok w' ->
  exists t, r = Ok t /\ w' = {| cwd := cwd w; tree := t |}.
Proof. destruct r as [t|err t]; cbn; [|discriminate]. intros [= <-]. eauto. Qed.

Lemma node_at_insert (t : gmap (list string) node) q n :
  q <> [] -> node_at (<[q := n]> t) q = Some n.
Proof. destruct q; [done|]. intros _. cbn. apply lookup_insert_eq. Qed.

Lemma fs_write_not_root (q : list string) (data : content)
    (t t' : gmap (list string) node) :
  fs_write q data t = Ok t' -> q <> [].
Proof. by destruct q. Qed.

Lemma fs_write_result (q : list string) (data : content)
    (t t' : gmap (list string) node) :
  fs_write q data t = Ok t' ->
  t' = <[q := File data
                (match node_at t q with
                 | Some (File _ x) => x
                 | _ => false
                 end)]> t.
Proof.
  unfold fs_write. destruct (node_at t q) as [[|d x]|].
  - discriminate.
  - by intros [= <-].
  - destruct (is_dir _ _); [by intros [= <-] | discriminate].
Qed.

(** A file written and then made executable holds what was written and
    is executable. *)
Lemma write_then_chmod p d wa wb wc :
  posix tool (writeFileSync p d) wa = Ok wb ->
  posix tool (sh ["chmod"; "a+x"; p]) wb = Ok wc ->
  node_at (tree wc) (resolve (cwd wc) p) = Some (File (Text d) true).
Proof.
  cbn. intros Hw Hc.
  apply in_place_settles in Hw as (t & Hw & ->).
  pose proof (fs_write_not_root _ _ _ _ Hw) as Hq.
  apply fs_write_result in Hw as ->.
  apply in_place_settles in Hc as (t' & Hc & ->). cbn in *.
  unfold chmod_a_x in Hc. rewrite node_at_insert in Hc by done.
  injection Hc as <-. by apply node_at_insert.
Qed.

(** *** The statements that take the project name *)

Lemma follow_unless_blocked (t : gmap (list string) node)
    (acc cs : list string) :
  follow t acc cs
  = match lookup_failure t (way_from acc cs) with
    | Some err => inr err
    | None => inl (foldl enter acc cs)
    end.
Proof.
  revert acc. induction cs as [|c cs IH]; intros acc; [done|].
  cbn [follow way_from foldl].
  assert (He : enter acc c
               = if String.eqb c "" then acc
                 else if String.eqb c "." then acc
                 else if String.eqb c ".." then removelast acc
                 else acc ++ [c]) by done.
  destruct (String.eqb c "") eqn:Hc.
  - rewrite He. apply IH.
  - cbn [lookup_failure]. destruct (node_at t acc) as [[|d x]|]; [|done..].
    by rewrite IH, He.
Qed.

Lemma fs_mkdir_settles (dir : list string) (p : string)
    (t t' : gmap (list string) node) :
  fs_mkdir dir p t = Ok t' ->
  blocked t dir p = None
  /\ node_at t (resolve dir p) = None
  /\ is_dir t (removelast (resolve dir p)) = true
  /\ t' = <[resolve dir p := Dir]> t.
Proof.
  unfold fs_mkdir. destruct (blocked t dir p); [discriminate|].
  cbn zeta. destruct (node_at t (resolve dir p)); [discriminate|].
  destruct (is_dir t _); [|discriminate]. by intros [= <-].
Qed.

Lemma fs_mkdir_throws (dir : list string) (p : string)
    (t t' : gmap (list string) node) (err : failure) :
  fs_mkdir dir p t = Threw err t' -> t' = t.
Proof.
  unfold fs_mkdir. destruct (blocked t dir p); [by intros [= _ <-]|].
  cbn zeta. destruct (node_at t (resolve dir p)); [by intros [= _ <-]|].
  destruct (is_dir t _); [discriminate | by intros [= _ <-]].
Qed.

(** [rm -rf] settles having removed nothing, or all that is at the
    place and below it. *)
Lemma rm_rf_settles (dir : list string) (p : string)
    (t t' : gmap (list string) node) :
  rm_rf dir p t = Ok t' ->
  (t' = t
   /\ (blocked t dir p <> None
       \/ (ends_in_slash p = true
           /\ exists d x, node_at t (resolve dir p) = Some (File d x))))
  \/ (t' = remove_tree (resolve dir p) t /\ blocked t dir p = None
      /\ resolve dir p <> []).
Proof.
  unfold rm_rf. destruct (blocked t dir p) as [err|].
  { intros [= <-]. left. by split; [|left]. }
  cbn zeta. destruct (node_at t (resolve dir p)) as [[|d x]|] eqn:Hn.
  - destruct (bool_decide (resolve dir p = [])) eqn:Hq; [discriminate|].
    apply bool_decide_eq_false in Hq.
    destruct (_ || _); [discriminate|]. intros [= <-]. by right.
  - assert (Hq : resolve dir p <> []) by (intros Hq; by rewrite Hq in Hn).
    destruct (ends_in_slash p).
    + intros [= <-]. left. split; [done|]. right. eauto.
    + intros [= <-]. by right.
  - assert (Hq : resolve dir p <> []) by (intros Hq; by rewrite Hq in Hn).
    intros [= <-]. by right.
Qed.

(** [mkdirSync] throws [EEXIST] when the path can be followed and
    something is at its end, and only then. *)
Lemma fs_mkdir_exists (dir : list string) (p : string)
    (t t' : gmap (list string) node) (err : failure) :
  fs_mkdir dir p t = Threw err t' ->
  err = SystemError "EEXIST"
  <-> blocked t dir p = None /\ node_at t (resolve dir p) <> None.
Proof.
  unfold fs_mkdir. destruct (blocked t dir p) as [e0|] eqn:Hb.
  { intros [= <- _]. split; [|by intros [? _]]. intros ->.
    unfold blocked in Hb. destruct (String.eqb p ""); [discriminate|].
    exfalso. induction (way dir p) as [|d ds IH]; cbn in Hb; [discriminate|].
    destruct (node_at t d) as [[|c x]|]; [auto | discriminate..]. }
  cbn zeta. destruct (node_at t (resolve dir p)) as [n|].
  - intros [= <- _]. by split.
  - destruct (is_dir t _); [discriminate|]. intros [= <- _].
    split; [discriminate | by intros [_ ?]].
Qed.

Lemma rm_rf_throws (dir : list string) (p : string)
    (t t' : gmap (list string) node) (err : failure) :
  rm_rf dir p t = Threw err t' ->
  t' = t /\ err = ExitCode 1 /\ blocked t dir p = None
  /\ node_at t (resolve dir p) = Some Dir.
Proof.
  unfold rm_rf. destruct (blocked t dir p); [discriminate|].
  cbn zeta. destruct (node_at t (resolve dir p)) as [[|d x]|].
  - destruct (_ || _); [|discriminate]. by intros [= <- <-].
  - by destruct (ends_in_slash p).
  - discriminate.
Qed.

Lemma fs_chdir_settles (dir : list string) (p : string)
    (t : gmap (list string) node) (q : list string) :
  fs_chdir dir p t = inl q ->
  q = resolve dir p /\ blocked t dir p = None /\ is_dir t q = true.
Proof.
  unfold fs_chdir, is_dir. destruct (blocked t dir p); [discriminate|].
  destruct (node_at t (resolve dir p)) as [[|d x]|] eqn:Hn; try discriminate.
  intros [= <-]. by rewrite Hn.
Qed.

Lemma node_at_removed (q : list string) (t : gmap (list string) node) :
  q <> [] -> node_at (remove_tree q t) q = None.
Proof.
  intros Hq. destruct q; [done|]. cbn.
  apply map_lookup_filter_None. right. intros n _ Hn. by apply Hn.
Qed.

(** *** Directories *)

Lemma directory_lookup (dir : list string) (t : gmap (list string) node)
    (p : list string) :
  directory dir t !! p = if decide (dir `prefix_of` p) then t !! p else None.
Proof.
  unfold directory. case_decide as Hp.
  - apply option_eq. intros n. rewrite map_lookup_filter_Some.
    split; [by intros [? _] | by intros ?].
  - apply map_lookup_filter_None. right. by intros n _.
Qed.

Lemma remove_tree_lookup (q : list string) (t : gmap (list string) node)
    (p : list string) :
  remove_tree q t !! p = if decide (q `prefix_of` p) then None else t !! p.
Proof.
  unfold remove_tree. case_decide as Hp.
  - apply map_lookup_filter_None. right. intros n _ Hn. by apply Hn.
  - apply option_eq. intros n. rewrite map_lookup_filter_Some.
    split; [by intros [? _] | by intros ?].
Qed.

(** Where a name is missing, nothing is below it. *)
Lemma remove_tree_missing (q : list string) (t : gmap (list string) node) :
  every_entry_in_a_directory t ->
  node_at t q = None ->
  remove_tree q t = t.
Proof.
  intros Ht Hq.
  assert (Hq' : q <> []) by (intros ->; discriminate Hq).
  assert (Hbelow : forall l, t !! (q ++ l) = None).
  { induction l as [|c l IH] using rev_ind.
    - rewrite app_nil_r. by destruct q.
    - destruct (t !! (q ++ l ++ [c])) as [n|] eqn:Hn; [|done].
      apply Ht in Hn. rewrite app_assoc, removelast_last in Hn.
      unfold is_dir in Hn. destruct (q ++ l) as [|c' k] eqn:Hk.
      + by apply app_eq_nil in Hk as [? _].
      + cbn in Hn. by rewrite IH in Hn. }
  apply map_eq. intros k. rewrite remove_tree_lookup.
  case_decide as Hk; [|done]. destruct Hk as [l ->]. by rewrite Hbelow.
Qed.

Lemma directory_agree (dir : list string) (t1 t2 : gmap (list string) node) :
  directory dir t1 = directory dir t2 <-> agree_below dir t1 t2.
Proof.
  split.
  - intros H p Hp. apply (f_equal (fun m => m !! p)) in H.
    by rewrite !directory_lookup, !decide_True in H.
  - intros H. apply map_eq. intros p. rewrite !directory_lookup.
    case_decide; [by apply H | done].
Qed.

Lemma agree_below_insert (dir : list string)
    (t1 t2 : gmap (list string) node) (q : list string) (n : node) :
  agree_below dir t1 t2 -> agree_below dir (<[q := n]> t1) (<[q := n]> t2).
Proof.
  intros H p Hp. rewrite !lookup_insert. case_decide; [done | by apply H].
Qed.

Lemma node_at_agree (dir : list string) (t1 t2 : gmap (list string) node)
    (q : list string) :
  agree_below dir t1 t2 -> dir `prefix_of` q -> node_at t1 q = node_at t2 q.
Proof. intros H Hq. destruct q; [done|]. cbn. by apply H. Qed.

Lemma node_at_snoc (t : gmap (list string) node) (base : list string)
    (c : string) :
  node_at t (base ++ [c]) = t !! (base ++ [c]).
Proof. by destruct base. Qed.

(** *** Paths that stay below *)

Lemma enter_below (dir acc comps : list string) :
  forallb (fun c => negb (String.eqb c "..")) comps = true ->
  dir `prefix_of` acc ->
  dir `prefix_of` foldl enter acc comps.
Proof.
  revert acc. induction comps as [|c comps IH]; intros acc Hc Hacc; [done|].
  cbn in Hc. apply andb_prop in Hc as [Hc Hcs]. cbn. apply IH; [done|].
  unfold enter. destruct (String.eqb c ""); [done|].
  destruct (String.eqb c "."); [done|].
  destruct (String.eqb c ".."); [done|]. by apply prefix_app_r.
Qed.

Lemma resolve_below (dir : list string) (p : string) :
  relative_down p = true -> dir `prefix_of` resolve dir p.
Proof.
  unfold relative_down, resolve. intros H.
  apply andb_prop in H as [Ha Hc]. apply negb_true_iff in Ha. rewrite Ha.
  by apply enter_below.
Qed.

(** *** The calls, one by one *)

Lemma fs_write_agree (dir q : list string) (data : content)
    (t1 t2 t1' t2' : gmap (list string) node) :
  agree_below dir t1 t2 -> dir `prefix_of` q ->
  fs_write q data t1 = Ok t1' -> fs_write q data t2 = Ok t2' ->
  agree_below dir t1' t2'.
Proof.
  intros Ht Hq H1 H2.
  apply fs_write_result in H1 as ->. apply fs_write_result in H2 as ->.
  rewrite (node_at_agree dir t1 t2 q Ht Hq). by apply agree_below_insert.
Qed.

Lemma mkdirs_lookup (base todo : list string)
    (t t' : gmap (list string) node) :
  mkdirs_from base todo t = Ok t' ->
  forall p, t' !! p = if decide (p ∈ chain base todo) then Some Dir else t !! p.
Proof.
  revert base t. induction todo as [|c rest IH]; intros base t H p; cbn in *.
  - injection H as <-. rewrite decide_False; [done | apply not_elem_of_nil].
  - rewrite node_at_snoc in H.
    destruct (t !! (base ++ [c])) as [[|d x]|] eqn:Hq; [| discriminate |].
    + rewrite (IH _ _ H p).
      destruct (decide (p = base ++ [c])) as [->|Hne].
      * rewrite (decide_True (P := _ ∈ _ :: _)) by left.
        by case_decide.
      * case_decide as Hin.
        -- rewrite decide_True; [done | by right].
        -- rewrite decide_False; [done|].
           intros Hin'. apply elem_of_cons in Hin' as [?|?]; done.
    + rewrite (IH _ _ H p).
      destruct (decide (p = base ++ [c])) as [->|Hne].
      * rewrite (decide_True (P := _ ∈ _ :: _)) by left.
        rewrite lookup_insert_eq. by case_decide.
      * rewrite lookup_insert_ne by done. case_decide as Hin.
        -- rewrite decide_True; [done | by right].
        -- rewrite decide_False; [done|].
           intros Hin'. apply elem_of_cons in Hin' as [?|?]; done.
Qed.

Lemma mkdirs_agree (dir base todo : list string)
    (t1 t2 t1' t2' : gmap (list string) node) :
  agree_below dir t1 t2 ->
  mkdirs_from base todo t1 = Ok t1' -> mkdirs_from base todo t2 = Ok t2' ->
  agree_below dir t1' t2'.
Proof.
  intros Ht H1 H2 p Hp.
  rewrite (mkdirs_lookup _ _ _ _ H1 p), (mkdirs_lookup _ _ _ _ H2 p).
  case_decide; [done | by apply Ht].
Qed.

Lemma fs_ensure_file_agree (dir q : list string)
    (t1 t2 t1' t2' : gmap (list string) node) :
  agree_below dir t1 t2 -> dir `prefix_of` q ->
  fs_ensure_file q t1 = Ok t1' -> fs_ensure_file q t2 = Ok t2' ->
  agree_below dir t1' t2'.
Proof.
  intros Ht Hq. unfold fs_ensure_file.
  rewrite (node_at_agree dir t1 t2 q Ht Hq).
  destruct (node_at t2 q) as [[|d x]|].
  - destruct (mkdirs_from _ _ t1) as [u1|] eqn:H1; [|discriminate].
    destruct (mkdirs_from _ _ t2) as [u2|] eqn:H2; [|discriminate].
    apply fs_write_agree; [|done]. by eapply mkdirs_agree.
  - by intros [= <-] [= <-].
  - destruct (mkdirs_from _ _ t1) as [u1|] eqn:H1; [|discriminate].
    destruct (mkdirs_from _ _ t2) as [u2|] eqn:H2; [|discriminate].
    apply fs_write_agree; [|done]. by eapply mkdirs_agree.
Qed.

Lemma chmod_agree (dir q : list string)
    (t1 t2 t1' t2' : gmap (list string) node) :
  agree_below dir t1 t2 -> dir `prefix_of` q ->
  chmod_a_x q t1 = Ok t1' -> chmod_a_x q t2 = Ok t2' ->
  agree_below dir t1' t2'.
Proof.
  intros Ht Hq. unfold chmod_a_x.
  rewrite (node_at_agree dir t1 t2 q Ht Hq).
  destruct (node_at t2 q) as [[|d x]|]; [| |discriminate].
  - by intros [= <-] [= <-].
  - intros [= <-] [= <-]. by apply agree_below_insert.
Qed.

(** A confined statement that settles on two worlds with the same
    working directory and the same content below it leaves them so. *)
Lemma confined_step (e : effect) (dir : list string)
    (t1 t2 : gmap (list string) node) (w1 w2 : world) :
  tools_are_local tool ->
  confined e = true ->
  agree_below dir t1 t2 ->
  posix tool e {| cwd := dir; tree := t1 |} = Ok w1 ->
  posix tool e {| cwd := dir; tree := t2 |} = Ok w2 ->
  cwd w1 = dir /\ cwd w2 = dir /\ agree_below dir (tree w1) (tree w2).
Proof.
  intros Hloc Hc Ht H1 H2.
  destruct e as [msg|argv|p|p|p|p d|p o n]; cbn in *; try discriminate.
  - injection H1 as <-. injection H2 as <-. done.
  - apply in_place_settles in H1 as (u1 & H1 & ->).
    apply in_place_settles in H2 as (u2 & H2 & ->). cbn.
    split; [done|]. split; [done|].
    assert (Htool : forall a, tool a dir t1 = Ok u1 -> tool a dir t2 = Ok u2 ->
                              agree_below dir u1 u2).
    { intros a Ha1 Ha2. apply directory_agree.
      eapply Hloc; [|exact Ha1|exact Ha2]. by apply directory_agree. }
    unfold spawn in *.
    destruct argv as [|c [|f [|p [|? ?]]]]; eauto.
    destruct (String.eqb c "rm" && String.eqb f "-rf"); [discriminate|].
    destruct (String.eqb c "chmod" && String.eqb f "a+x"); [|eauto].
    apply (chmod_agree dir (resolve dir p) t1 t2); auto using resolve_below.
  - apply in_place_settles in H1 as (u1 & H1 & ->).
    apply in_place_settles in H2 as (u2 & H2 & ->). cbn.
    split; [done|]. split; [done|].
    apply (fs_ensure_file_agree dir (resolve dir p) t1 t2);
      auto using resolve_below.
  - apply in_place_settles in H1 as (u1 & H1 & ->).
    apply in_place_settles in H2 as (u2 & H2 & ->). cbn.
    split; [done|]. split; [done|].
    apply (fs_write_agree dir (resolve dir p) (Text d) t1 t2);
      auto using resolve_below.
  - apply in_place_settles in H1 as (u1 & H1 & ->).
    apply in_place_settles in H2 as (u2 & H2 & ->). cbn.
    split; [done|]. split; [done|].
    apply (fs_write_agree dir (resolve dir p) (Json o n) t1 t2);
      auto using resolve_below.
Qed.

Lemma confined_steps (l : list effect) (dir : list string)
    (w1 w2 w1' w2' : world) :
  tools_are_local tool ->
  forallb confined l = true ->
  cwd w1 = dir -> cwd w2 = dir ->
  agree_below dir (tree w1) (tree w2) ->
  after (posix tool) l w1 = Ok w1' ->
  after (posix tool) l w2 = Ok w2' ->
  agree_below dir (tree w1') (tree w2').
Proof.
  intros Hloc. revert w1 w2.
  induction l as [|e l IH]; intros w1 w2 Hc Hd1 Hd2 Ht H1 H2; cbn in *.
  - injection H1 as <-. by injection H2 as <-.
  - apply andb_prop in Hc as [He Hl].
    destruct (posix tool e w1) as [v1|] eqn:Hv1; [|discriminate].
    destruct (posix tool e w2) as [v2|] eqn:Hv2; [|discriminate].
    destruct w1 as [d1 t1], w2 as [d2 t2]. cbn in *. subst d1 d2.
    destruct (confined_step e dir t1 t2 v1 v2 Hloc He Ht Hv1 Hv2)
      as (? & ? & ?).
    by apply (IH v1 v2).
Qed.

(** When [rm -rf] and [mkdirSync] of the same path both settle, they
    leave an empty directory there, whatever was there before. *)
Lemma fresh_directory (msg p : string) (w w' : world) :
  after (posix tool) [printStep msg; sh ["rm"; "-rf"; p]; mkdirSync p] w
  = Ok w' ->
  cwd w' = cwd w
  /\ directory (resolve (cwd w) p) (tree w') = {[ resolve (cwd w) p := Dir ]}.
Proof.
  cbn. set (q := resolve (cwd w) p).
  destruct (rm_rf (cwd w) p (tree w)) as [t1|] eqn:Hrm; [|discriminate].
  cbn. destruct (fs_mkdir (cwd w) p t1) as [t2|] eqn:Hmk; [|discriminate].
  cbn. intros [= <-]. cbn. split; [done|].
  apply fs_mkdir_settles in Hmk as (Hb & Hn & _ & ->). fold q in Hn |- *.
  apply rm_rf_settles in Hrm as [[-> Hrm] | [-> _]].
  { destruct Hrm as [Hrm | (_ & d & x & Hrm)]; [done|].
    fold q in Hrm. by rewrite Hrm in Hn. }
  fold q. apply map_eq. intros k.
  rewrite directory_lookup, lookup_insert, remove_tree_lookup.
  destruct (decide (q = k)) as [<-|Hne].
  - rewrite lookup_singleton_eq. by rewrite decide_True.
  - rewrite lookup_singleton_ne by done. by repeat case_decide.
Qed.

End ReferenceFacts.

(** ** The hook files *)

(** C5.  In a run that completes on the reference world, when
    [prepareCommitLint] has returned the file [./.husky/commit-msg]
    holds the hook text and is executable, and when [prepareLintStaged]
    has returned the same is true of [./.husky/pre-commit].  In each of
    the two functions the [chmod a+x] of the hook file is the last
    statement and comes right after the write of the file, and the whole
    run issues that command line exactly once per hook file. *)
Theorem hooks_are_made_executable (P : string)
    (tool : list string -> list string -> gmap (list string) node ->
            result (gmap (list string) node) failure)
    (w : world) (r : run world) :
  main P (posix tool) (start w) = Ok r ->
  (exists w5,
     after (posix tool) (map snd (through P PrepareCommitLint)) w = Ok w5
     /\ node_at (tree w5) (resolve (cwd w5) "./.husky/commit-msg")
        = Some (File (Text commit_msg_hook) true))
  /\ (exists w8,
        after (posix tool) (map snd (through P PrepareLintStaged)) w = Ok w8
        /\ node_at (tree w8) (resolve (cwd w8) "./.husky/pre-commit")
           = Some (File (Text pre_commit_hook) true))
  /\ drop 4 prepareCommitLint
     = [ writeFileSync "./.husky/commit-msg" commit_msg_hook;
         sh ["chmod"; "a+x"; "./.husky/commit-msg"] ]
  /\ drop 4 prepareLintStaged
     = [ writeFileSync "./.husky/pre-commit" pre_commit_hook;
         sh ["chmod"; "a+x"; "./.husky/pre-commit"] ]
  /\ List.filter (starts_with ["chmod"]) (commands (log r))
     = [ ["chmod"; "a+x"; "./.husky/commit-msg"];
         ["chmod"; "a+x"; "./.husky/pre-commit"] ]
  /\ List.filter (starts_with ["chmod"])
       (commands (of_stage PrepareCommitLint (log r)))
     = [ ["chmod"; "a+x"; "./.husky/commit-msg"] ]
  /\ List.filter (starts_with ["chmod"])
       (commands (of_stage PrepareLintStaged (log r)))
     = [ ["chmod"; "a+x"; "./.husky/pre-commit"] ].
Proof.
  intros H. rewrite main_exec in H. apply exec_settles in H as [Hlog Hw].
  cbn [start env log app] in Hlog, Hw. rewrite Hlog. clear Hlog.
  assert (Hhook : forall n p d,
    map snd (pipeline P)
    = map snd (take n (pipeline P))
      ++ [writeFileSync p d; sh ["chmod"; "a+x"; p]]
      ++ map snd (drop (n + 2) (pipeline P)) ->
    exists w', after (posix tool)
                 (map snd (take n (pipeline P))
                  ++ [writeFileSync p d; sh ["chmod"; "a+x"; p]]) w = Ok w'
               /\ node_at (tree w') (resolve (cwd w') p)
                  = Some (File (Text d) true)).
  { intros n p d Hsplit. rewrite Hsplit, app_assoc in Hw.
    apply after_app in Hw as (w' & Hw' & _). exists w'. split; [done|].
    apply after_app in Hw' as (wa & _ & Hw').
    cbn [after] in Hw'.
    destruct (posix tool (writeFileSync p d) wa) as [wb|] eqn:Hwb;
      [|discriminate].
    destruct (posix tool (sh ["chmod"; "a+x"; p]) wb) as [wc|] eqn:Hwc;
      [|discriminate].
    injection Hw' as <-. by eapply write_then_chmod. }
  split; [|split].
  - destruct (Hhook 18 "./.husky/commit-msg" commit_msg_hook) as (w5 & ? & ?);
      [vm_compute; reflexivity|]. by exists w5.
  - destruct (Hhook 34 "./.husky/pre-commit" pre_commit_hook) as (w8 & ? & ?);
      [vm_compute; reflexivity|]. by exists w8.
  - repeat split; vm_compute; reflexivity.
Qed.

Lemma hooks_are_made_executable_witness :
  exists w5,
    after (posix tools_online)
      (map snd (through "my-app" PrepareCommitLint)) home = Ok w5
    /\ node_at (tree w5) (resolve (cwd w5) "./.husky/commit-msg")
       = Some (File (Text commit_msg_hook) true).
Proof.
  destruct (hooks_are_made_executable "my-app" tools_online home
              (state_of (main "my-app" (posix tools_online) (start home))))
    as (H5 & _).
  - apply settled_state. vm_compute. reflexivity.
  - exact H5.
Defined.

(** ** Running twice *)

(** A completed run on the reference world, cut after the directory has
    been recreated and after the [cd]. *)
Lemma completed_run_shape (P : string)
    (tool : list string -> list string -> gmap (list string) node ->
            result (gmap (list string) node) failure)
    (w : world) (r : run world) :
  main P (posix tool) (start w) = Ok r ->
  exists wa,
    after (posix tool) (take 3 (prepare P)) w = Ok wa
    /\ directory (resolve (cwd w) ("./" +:+ P)) (tree wa)
       = {[ resolve (cwd w) ("./" +:+ P) := Dir ]}
    /\ after (posix tool) (map snd (drop 4 (pipeline P)))
         {| cwd := resolve (cwd w) ("./" +:+ P); tree := tree wa |}
       = Ok (env r).
Proof.
  intros H. rewrite main_exec in H. apply exec_settles in H as [_ Hw].
  cbn [start env] in Hw.
  change (map snd (pipeline P))
    with (take 3 (prepare P)
          ++ [cd ("./" +:+ P)] ++ map snd (drop 4 (pipeline P))) in Hw.
  apply after_app in Hw as (wa & Ha & Hw). exists wa.
  pose proof Ha as Hfresh. apply fresh_directory in Hfresh as [Hcwd Hdir].
  split; [done|]. split; [done|].
  cbn [app after posix] in Hw. rewrite Hcwd in Hw.
  destruct (fs_chdir _ _ _) as [q|] eqn:Hq; [|done].
  by apply fs_chdir_settles in Hq as (-> & _).
Qed.

(** Whatever the tree was before, a run that completes leaves in the
    target a content that depends on the working directory it was
    started in only. *)
Lemma target_content_is_determined (P : string)
    (tool : list string -> list string -> gmap (list string) node ->
            result (gmap (list string) node) failure)
    (wa wb : world) (ra rb : run world) :
  tools_are_local tool ->
  cwd wa = cwd wb ->
  main P (posix tool) (start wa) = Ok ra ->
  main P (posix tool) (start wb) = Ok rb ->
  directory (resolve (cwd wa) ("./" +:+ P)) (tree (env ra))
  = directory (resolve (cwd wa) ("./" +:+ P)) (tree (env rb)).
Proof.
  intros Hloc Hcwd Ha Hb.
  apply completed_run_shape in Ha as (ua & _ & Hda & Hta).
  apply completed_run_shape in Hb as (ub & _ & Hdb & Htb).
  rewrite <- Hcwd in Hdb, Htb.
  apply directory_agree.
  eapply (confined_steps tool (map snd (drop 4 (pipeline P))));
    [exact Hloc | vm_compute; reflexivity | | | | exact Hta | exact Htb];
    [reflexivity | reflexivity |].
  cbn [tree]. apply directory_agree. congruence.
Qed.

(** C7.  Two runs against the same target path, the second one started
    where the first one was started, on the tree the first one left; the
    programs the script starts are assumed local.  In both runs the
    first statements of [prepare] are [rm -rf] and [mkdirSync] of the
    target, and once they have settled the target is an empty directory:
    what a previous run left there is gone.  When both runs complete,
    the content of the target after the second run equals the content
    after the first, and the second run has issued the very statements
    of the first: nothing in what it does depends on what the first run
    left. *)
Theorem second_run_recreates_the_directory (P : string)
    (tool : list string -> list string -> gmap (list string) node ->
            result (gmap (list string) node) failure)
    (w0 : world) (r1 r2 : run world) :
  tools_are_local tool ->
  main P (posix tool) (start w0) = Ok r1 ->
  main P (posix tool) (start (again w0 (env r1))) = Ok r2 ->
  directory (resolve (cwd w0) ("./" +:+ P)) (tree (env r2))
  = directory (resolve (cwd w0) ("./" +:+ P)) (tree (env r1))
  /\ log r2 = log r1
  /\ take 3 (prepare P)
     = [ printStep "Preparing ...";
         sh ["rm"; "-rf"; "./" +:+ P];
         mkdirSync ("./" +:+ P) ]
  /\ (exists wa,
        after (posix tool) (take 3 (prepare P)) w0 = Ok wa
        /\ directory (resolve (cwd w0) ("./" +:+ P)) (tree wa)
           = {[ resolve (cwd w0) ("./" +:+ P) := Dir ]})
  /\ (exists wb,
        after (posix tool) (take 3 (prepare P)) (again w0 (env r1)) = Ok wb
        /\ directory (resolve (cwd w0) ("./" +:+ P)) (tree wb)
           = {[ resolve (cwd w0) ("./" +:+ P) := Dir ]}).
Proof.
  intros Hloc H1 H2.
  split.
  { symmetry.
    by apply (target_content_is_determined P tool w0 (again w0 (env r1))). }
  rewrite (completed_log _ _ _ _ H1), (completed_log _ _ _ _ H2).
  split; [reflexivity|]. split; [reflexivity|].
  apply completed_run_shape in H1 as (wa & Ha & Hda & _).
  apply completed_run_shape in H2 as (wb & Hb & Hdb & _).
  cbn [again cwd] in Hdb. split; eauto.
Qed.

Lemma insert_is_local (f : list string -> list string) (n : node)
    (dir : list string) (t1 t2 : gmap (list string) node) :
  directory dir t1 = directory dir t2 ->
  directory dir (<[f dir := n]> t1) = directory dir (<[f dir := n]> t2).
Proof.
  rewrite !directory_agree. apply agree_below_insert.
Qed.

Lemma tools_online_local : tools_are_local tools_online.
Proof.
  intros argv dir t1 t2 t1' t2' Ht. unfold tools_online.
  repeat case_match; intros [= <-] [= <-]; try done.
  - by apply (insert_is_local (fun d => d ++ ["package.json"])).
  - by apply (insert_is_local (fun d => d ++ [".git"])).
  - by apply (insert_is_local (fun d => d ++ [".husky"])).
Qed.

Lemma second_run_recreates_the_directory_witness :
  directory ["home"; "dev"; "my-app"]
    (tree (env (state_of
      (main "my-app" (posix tools_online)
         (start (again home
                   (env (state_of (main "my-app" (posix tools_online)
                                     (start home))))))))))
  = directory ["home"; "dev"; "my-app"]
      (tree (env (state_of (main "my-app" (posix tools_online)
                              (start home))))).
Proof.
  destruct (second_run_recreates_the_directory "my-app" tools_online home
              (state_of (main "my-app" (posix tools_online) (start home)))
              (state_of
                 (main "my-app" (posix tools_online)
                    (start (again home
                              (env (state_of
                                 (main "my-app" (posix tools_online)
                                    (start home)))))))))
    as (Hsame & _).
  - exact tools_online_local.
  - apply settled_state. vm_compute. reflexivity.
  - apply settled_state. vm_compute. reflexivity.
  - exact Hsame.
Defined.

(** * Further facts *)

(** ** The shape of a run that throws *)

Lemma take_concat_split {A : Type} (ls : list (list A)) (n : nat) :
  n < length (concat ls) ->
  exists i l k,
    ls !! i = Some l /\ k < length l
    /\ take (S n) (concat ls) = concat (take i ls) ++ take (S k) l.
Proof.
  revert n. induction ls as [|l0 ls IH]; intros n Hn; cbn in Hn; [lia|].
  rewrite length_app in Hn.
  destruct (decide (n < length l0)) as [Hlt|Hge].
  - exists 0, l0, n. repeat split; [done|]. cbn.
    by rewrite take_app_le by lia.
  - destruct (IH (n - length l0)) as (i & l & k & Hi & Hk & Ht); [lia|].
    exists (S i), l, k. repeat split; [done..|]. cbn.
    rewrite take_app_ge by lia.
    replace (S n - length l0) with (S (n - length l0)) by lia.
    by rewrite Ht, app_assoc.
Qed.

Lemma last_take_S {A : Type} (l : list A) (k : nat) :
  k < length l -> last (take (S k) l) = l !! k.
Proof.
  intros Hk. destruct (lookup_lt_is_Some_2 l k Hk) as [x Hx].
  by rewrite (take_S_r l k x Hx), last_snoc.
Qed.

(** When a run throws, the functions called before the failing one have
    run to their end, the failing function has run up to the failing
    statement and no further, and nothing else has been issued: the
    failing function alone is left half done. *)
Theorem only_the_failing_function_is_partial {W E : Type} (P : string)
    (perform : effect -> W -> result W E) (w : W) (r : run W) (err : E) :
  main P perform (start w) = Threw err r ->
  exists i s k,
    all_stages !! i = Some s
    /\ k < length (body P s)
    /\ log r
       = concat (map (tagged P) (take i all_stages))
         ++ take (S k) (tagged P s)
    /\ last (log r) = pair s <$> body P s !! k.
Proof.
  intros H. rewrite main_exec in H.
  apply exec_throws in H as (pre & e & post & w1 & Hl & _ & _ & Hlog).
  cbn [start log app] in Hlog.
  destruct (take_concat_split (map (tagged P) all_stages) (length pre))
    as (i & l & k & Hi & Hk & Ht).
  { fold (pipeline P). rewrite Hl, length_app. cbn. lia. }
  apply list_lookup_fmap_Some_1 in Hi as (s & -> & Hs).
  unfold tagged in Hk. rewrite length_map in Hk.
  exists i, s, k. split; [done|]. split; [done|].
  assert (Hlog' : log r = concat (map (tagged P) (take i all_stages))
                          ++ take (S k) (tagged P s)).
  { rewrite Hlog, <- List.firstn_map, <- Ht. fold (pipeline P). rewrite Hl.
    replace (pre ++ e :: post) with ((pre ++ [e]) ++ post)
      by (by rewrite <- app_assoc).
    rewrite take_app_length'; [done|]. rewrite length_app. cbn. lia. }
  split; [exact Hlog'|].
  rewrite Hlog', last_app, last_take_S
    by (unfold tagged; rewrite length_map; lia).
  unfold tagged. change (map (pair s) (body P s)) with (pair s <$> body P s).
  rewrite list_lookup_fmap.
  destruct (lookup_lt_is_Some_2 (body P s) k Hk) as [x ->]. done.
Qed.

Lemma only_the_failing_function_is_partial_witness :
  exists i s k,
    all_stages !! i = Some s
    /\ k < length (body "my-app" s)
    /\ log (state_of (main "my-app" (posix tools_offline) (start home)))
       = concat (map (tagged "my-app") (take i all_stages))
         ++ take (S k) (tagged "my-app" s)
    /\ last (log (state_of (main "my-app" (posix tools_offline) (start home))))
       = pair s <$> body "my-app" s !! k.
Proof.
  apply (only_the_failing_function_is_partial "my-app" (posix tools_offline)
           home _ (ExitCode 1)).
  apply thrown_state. vm_compute. reflexivity.
Defined.

(** ** Status lines *)

Lemma announced_sound (seen : list stage) (l : list (stage * effect)) :
  announced seen l = true ->
  forall pre s e post,
    l = pre ++ (s, e) :: post ->
    match e with
    | printStep _ => True
    | _ => s ∈ seen \/ exists m, (s, printStep m) ∈ pre
    end.
Proof.
  revert seen. induction l as [|[s0 e0] l IH]; intros seen Ha pre s e post Hl.
  - by destruct pre.
  - destruct pre as [|x pre]; cbn in Hl.
    + injection Hl as ? ? ?. subst s0 e0 l.
      destruct e; try done; cbn in Ha;
        apply andb_prop in Ha as [Hs _]; left;
        by apply bool_decide_eq_true in Hs.
    + injection Hl as ? ?. subst x l.
      assert (Hstep : forall seen',
                announced seen' (pre ++ (s, e) :: post) = true ->
                (forall s', s' ∈ seen' ->
                   s' ∈ seen \/ exists m, (s', printStep m) ∈ (s0, e0) :: pre) ->
                match e with
                | printStep _ => True
                | _ => s ∈ seen
                       \/ exists m, (s, printStep m) ∈ (s0, e0) :: pre
                end).
      { intros seen' Ha' Hseen.
        pose proof (IH seen' Ha' pre s e post eq_refl) as Hpre.
        destruct e; try done;
          (destruct Hpre as [Hin|[m Hm]];
           [by apply Hseen | right; exists m; by right]). }
      destruct e0; cbn in Ha;
        try (apply andb_prop in Ha as [_ Ha]; apply (Hstep seen Ha); by left).
      apply (Hstep (s0 :: seen) Ha). intros s' Hs'.
      apply elem_of_cons in Hs' as [->|Hs']; [|by left].
      right. exists msg. by left.
Qed.

Lemma filter_prefix {A : Type} (f : A -> bool) (l1 l2 : list A) :
  l1 `prefix_of` l2 -> List.filter f l1 `prefix_of` List.filter f l2.
Proof. intros [k ->]. rewrite List.filter_app. by apply prefix_app_r. Qed.

(** In every run, completed or not and whatever the outside world, the
    first statement is the status line [Preparing ...]; a statement that
    is not a status line is issued only after a status line of its own
    function; and no function prints more than one status line. *)
Theorem every_function_announces_itself {W E : Type} (P : string)
    (perform : effect -> W -> result W E) (w : W)
    (pre post : list (stage * effect)) (s : stage) (e : effect) :
  log (state_of (main P perform (start w))) = pre ++ (s, e) :: post ->
  match e with
  | printStep _ => True
  | _ => exists m, (s, printStep m) ∈ pre
  end
  /\ log (state_of (main P perform (start w))) !! 0
     = Some (Prepare, printStep "Preparing ...")
  /\ forall s',
       length (List.filter
                 (fun x => bool_decide (x.1 = s')
                           && match x.2 with printStep _ => true | _ => false end)
                 (log (state_of (main P perform (start w))))) <= 1.
Proof.
  intros Hl.
  pose proof (log_is_initial_part P perform w) as [k Hk].
  split; [|split].
  - assert (Ha : announced [] (pipeline P) = true) by (vm_compute; reflexivity).
    pose proof (announced_sound [] (pipeline P) Ha pre s e (post ++ k)) as H.
    rewrite Hk, Hl, <- app_assoc in H. specialize (H eq_refl).
    destruct e; try done; destruct H as [Hin|H]; try done;
      by apply elem_of_nil in Hin.
  - assert (Hhead : pipeline P !! 0
                    = Some (Prepare, printStep "Preparing ..."))
      by reflexivity.
    rewrite Hk, lookup_app_l in Hhead; [done|].
    rewrite Hl, length_app. cbn. lia.
  - intros s'.
    etransitivity;
      [apply prefix_length, filter_prefix; by exists k|].
    destruct s'; vm_compute; lia.
Qed.

Lemma every_function_announces_itself_witness :
  exists m,
    (InstallDependencies, printStep m)
    ∈ take 8 (pipeline "my-app").
Proof.
  destruct (every_function_announces_itself "my-app" (posix tools_offline)
              home (take 8 (pipeline "my-app")) []
              InstallDependencies
              (sh (["npm"; "install"; "--save-dev"] ++ devDependencies)))
    as (H & _).
  - vm_compute. reflexivity.
  - exact H.
Defined.

(** ** More on the reference world *)

Section ReferenceRuns.

Variable tool :
  list string -> list string -> gmap (list string) node ->
  result (gmap (list string) node) failure.

Lemma node_at_insert_ne (t : gmap (list string) node) (q k : list string)
    (n : node) :
  q <> k -> node_at (<[q := n]> t) k = node_at t k.
Proof. intros Hne. destruct k; [done|]. cbn. by apply lookup_insert_ne. Qed.

Lemma node_at_file (t : gmap (list string) node) (k : list string)
    (d : content) (x : bool) :
  node_at t k = Some (File d x) -> k <> [] /\ t !! k = Some (File d x).
Proof. by destruct k. Qed.

Lemma enter_app (q acc : list string) (c : string) :
  String.eqb c ".." = false -> enter (q ++ acc) c = q ++ enter acc c.
Proof.
  intros H. unfold enter. rewrite H.
  destruct (String.eqb c ""); [done|]. destruct (String.eqb c "."); [done|].
  by rewrite app_assoc.
Qed.

Lemma foldl_enter_app (q comps acc : list string) :
  forallb (fun c => negb (String.eqb c "..")) comps = true ->
  foldl enter (q ++ acc) comps = q ++ foldl enter acc comps.
Proof.
  revert acc. induction comps as [|c comps IH]; intros acc H; [done|].
  cbn in H. apply andb_prop in H as [Hc Hcs]. apply negb_true_iff in Hc.
  cbn. rewrite enter_app by done. by apply IH.
Qed.

(** A relative path that never steps up names the same file below any
    working directory. *)
Lemma resolve_app (q : list string) (p : string) :
  relative_down p = true -> resolve q p = q ++ file_of p.
Proof.
  unfold relative_down, resolve, file_of, resolve. intros H.
  apply andb_prop in H as [Ha Hc]. apply negb_true_iff in Ha. rewrite Ha.
  rewrite <- (app_nil_r q) at 1. by apply foldl_enter_app.
Qed.

Lemma mkdirs_keeps (base todo : list string)
    (t u : gmap (list string) node) (p : list string) (n : node) :
  mkdirs_from base todo t = Ok u -> t !! p = Some n -> u !! p = Some n.
Proof.
  revert base t. induction todo as [|c rest IH]; intros base t H Hp; cbn in H.
  - by injection H as <-.
  - rewrite node_at_snoc in H.
    destruct (t !! (base ++ [c])) as [[|d x]|] eqn:Hq; [eauto | done |].
    eapply IH; [exact H|]. rewrite lookup_insert_ne; [done | congruence].
Qed.

Lemma node_at_mkdirs (base todo : list string)
    (t u : gmap (list string) node) (k : list string) (n : node) :
  mkdirs_from base todo t = Ok u -> node_at t k = Some n -> node_at u k = Some n.
Proof. destruct k; [done|]. cbn. apply mkdirs_keeps. Qed.

(** After [fs.ensureFileSync] the path names a file. *)
Lemma fs_ensure_file_leaves_file (q : list string)
    (t t' : gmap (list string) node) :
  fs_ensure_file q t = Ok t' -> exists d x, node_at t' q = Some (File d x).
Proof.
  unfold fs_ensure_file.
  assert (Hnew : forall u, fs_write q (Text "") u = Ok t' ->
                           exists d x, node_at t' q = Some (File d x)).
  { intros u Hw. pose proof (fs_write_not_root _ _ _ _ Hw) as Hq.
    apply fs_write_result in Hw as ->. rewrite node_at_insert by done. eauto. }
  destruct (node_at t q) as [[|d x]|] eqn:Hn.
  - destruct (mkdirs_from _ _ t); [eauto | done].
  - intros [= <-]. eauto.
  - destruct (mkdirs_from _ _ t); [eauto | done].
Qed.

(** A write that follows the [fs.ensureFileSync] of the same path
    settles. *)
Lemma write_after_ensure_settles (p : string) (c : content) (e : effect)
    (w0 w : world) :
  posix tool (ensureFileSync p) w0 = Ok w ->
  written e = Some (p, c) ->
  succeeded (posix tool e w) = true.
Proof.
  cbn. intros He Hw. apply in_place_settles in He as (t & He & ->).
  apply fs_ensure_file_leaves_file in He as (d & x & Hn).
  destruct e; try discriminate; injection Hw as <- _; cbn;
    unfold fs_write; by rewrite Hn.
Qed.

Lemma unguarded_complete (pre post : list effect) (e : effect) (p : string)
    (c : content) (prev : option effect) (w0 w1 : world) :
  (forall p0, prev = Some (ensureFileSync p0) ->
              exists w, posix tool (ensureFileSync p0) w = Ok w0) ->
  after (posix tool) pre w0 = Ok w1 ->
  written e = Some (p, c) ->
  succeeded (posix tool e w1) = false ->
  p ∈ unguarded prev (pre ++ e :: post).
Proof.
  revert prev w0. induction pre as [|x pre IH]; intros prev w0 Hprev Hpre Hw Hf.
  - cbn in Hpre. injection Hpre as <-. cbn. rewrite Hw.
    apply elem_of_app. left.
    destruct prev as [[| | | |p0| |]|]; try by left.
    destruct (String.eqb p0 p) eqn:Hp0; [|by left].
    apply String.eqb_eq in Hp0 as ->.
    destruct (Hprev p eq_refl) as [w Hens].
    by rewrite (write_after_ensure_settles p c e w w0 Hens Hw) in Hf.
  - cbn in Hpre. destruct (posix tool x w0) as [w0'|] eqn:Hx; [|done].
    cbn. apply elem_of_app. right.
    apply (IH (Some x) w0'); [|done..].
    intros p0 [= ->]. eauto.
Qed.

End ReferenceRuns.

(** ** Where a run can fail *)

(** A write whose path is not among the unguarded ones comes right
    after the [fs.ensureFileSync] of its path. *)
Lemma guard_precedes (pre post : list effect) (e : effect) (p : string)
    (c : content) (prev : option effect) :
  written e = Some (p, c) ->
  p ∉ unguarded prev (pre ++ e :: post) ->
  last pre = Some (ensureFileSync p)
  \/ (pre = [] /\ prev = Some (ensureFileSync p)).
Proof.
  revert prev. induction pre as [|x pre IH]; intros prev Hw Hn.
  - right. split; [done|]. cbn in Hn. rewrite Hw in Hn.
    rewrite elem_of_app in Hn.
    destruct prev as [[| | | |p0| |]|];
      try (exfalso; apply Hn; left; by left).
    destruct (String.eqb p0 p) eqn:Hp0.
    + by apply String.eqb_eq in Hp0 as ->.
    + exfalso. apply Hn. left. by left.
  - left. cbn in Hn. rewrite elem_of_app in Hn.
    destruct (IH (Some x) Hw) as [Hl | [-> Hx]].
    + intros Hin. apply Hn. by right.
    + rewrite last_cons. by rewrite Hl.
    + by injection Hx as ->.
Qed.

(** Of the twelve writes, ten follow the [fs.ensureFileSync] of their
    own path, and on the reference world none of these ten can fail: a
    run that has got as far as such a write gets through it, so no run
    stops there.  The two writes without that guard are those of
    [.gitignore] and [.releaserc.json].  (A failure is one that follows
    from the tree; permissions and a full disk are not modelled.) *)
Theorem guarded_writes_settle (P : string)
    (tool : list string -> list string -> gmap (list string) node ->
            result (gmap (list string) node) failure)
    (w w1 : world) (pre post : list (stage * effect)) (s : stage)
    (e : effect) (p : string) (c : content) :
  pipeline P = pre ++ (s, e) :: post ->
  after (posix tool) (map snd pre) w = Ok w1 ->
  written e = Some (p, c) ->
  p <> ".gitignore" ->
  p <> ".releaserc.json" ->
  last (map snd pre) = Some (ensureFileSync p)
  /\ succeeded (posix tool e w1) = true
  /\ (forall err r,
        main P (posix tool) (start w) = Threw err r ->
        log r <> pre ++ [(s, e)]).
Proof.
  intros Hl Hpre Hw Hp1 Hp2.
  assert (Hun : p ∉ unguarded None (map snd pre ++ e :: map snd post)).
  { change (e :: map snd post) with (map snd ((s, e) :: post)).
    rewrite <- map_app, <- Hl. vm_compute.
    intros Hin.
    apply elem_of_cons in Hin as [->|Hin]; [done|].
    apply elem_of_cons in Hin as [->|Hin]; [done|].
    by apply elem_of_nil in Hin. }
  assert (Hok : succeeded (posix tool e w1) = true).
  { destruct (succeeded (posix tool e w1)) eqn:Hs; [done|].
    exfalso. apply Hun.
    by apply (unguarded_complete tool _ _ e p c None w w1). }
  split; [|split; [exact Hok|]].
  - by destruct (guard_precedes _ _ _ _ _ None Hw Hun) as [? | [_ ?]].
  - intros err r H Hlog. rewrite main_exec in H.
    apply exec_throws in H as (pre' & x & post' & w1' & _ & Hpre' & He & Hlog').
    cbn [start log env app] in *. rewrite Hlog in Hlog'.
    apply app_inj_tail in Hlog' as [<- <-].
    rewrite Hpre in Hpre'. injection Hpre' as <-.
    cbn [snd] in He. by rewrite He in Hok.
Qed.

Lemma guarded_writes_settle_witness :
  last (map snd (take 18 (pipeline "my-app")))
  = Some (ensureFileSync "./.husky/commit-msg")
  /\ succeeded
       (posix tools_online (writeFileSync "./.husky/commit-msg" commit_msg_hook)
          (state_of (after (posix tools_online)
                       (map snd (take 18 (pipeline "my-app"))) home)))
     = true.
Proof.
  destruct (guarded_writes_settle "my-app" tools_online home
              (state_of (after (posix tools_online)
                           (map snd (take 18 (pipeline "my-app"))) home))
              (take 18 (pipeline "my-app")) (drop 19 (pipeline "my-app"))
              PrepareCommitLint
              (writeFileSync "./.husky/commit-msg" commit_msg_hook)
              "./.husky/commit-msg" (Text commit_msg_hook))
    as (Hguard & Hok & _).
  - reflexivity.
  - apply settled_state. vm_compute. reflexivity.
  - reflexivity.
  - discriminate.
  - discriminate.
  - split; [exact Hguard | exact Hok].
Defined.

(** The write of [.gitignore] has no such guard, and it can fail: when
    [git init] has lost the directory the script works in, the run
    stops at that write. *)
Example gitignore_write_can_fail :
  error_of (main "my-app" (posix tools_adrift) (start home))
  = Some (SystemError "ENOENT")
  /\ last (log (state_of (main "my-app" (posix tools_adrift) (start home))))
     = Some (Prepare, writeFileSync ".gitignore" "node_modules").
Proof. split; vm_compute; reflexivity. Qed.

(** ** Project names that stop the run at once *)

Lemma removelast_not_below (q : list string) :
  q <> [] -> ¬ q `prefix_of` removelast q.
Proof.
  intros Hq Hp. apply prefix_length in Hp.
  rewrite List.removelast_firstn_len, length_take in Hp.
  destruct q; [done|]. cbn in Hp. lia.
Qed.

Lemma lookup_failure_None (t : gmap (list string) node)
    (ds : list (list string)) :
  lookup_failure t ds = None <-> forall d, d ∈ ds -> is_dir t d = true.
Proof.
  unfold is_dir. induction ds as [|d ds IH]; cbn.
  - split; [|done]. intros _ d Hd. by apply elem_of_nil in Hd.
  - destruct (node_at t d) as [[|c x]|] eqn:Hn.
    + rewrite IH. split.
      * intros H d' Hd'. apply elem_of_cons in Hd' as [->|Hd'];
          [by rewrite Hn | by apply H].
      * intros H d' Hd'. apply H. by right.
    + split; [done|]. intros H. specialize (H d). rewrite Hn in H.
      discriminate H. by left.
    + split; [done|]. intros H. specialize (H d). rewrite Hn in H.
      discriminate H. by left.
Qed.

Lemma blocked_None (t : gmap (list string) node) (dir : list string)
    (p : string) :
  blocked t dir p = None
  <-> p <> "" /\ forall d, d ∈ way dir p -> is_dir t d = true.
Proof.
  unfold blocked. destruct (String.eqb p "") eqn:Hp.
  - apply String.eqb_eq in Hp. split; [done | by intros [? _]].
  - apply String.eqb_neq in Hp. rewrite lookup_failure_None. by split; [|intros [_ ?]].
Qed.

(** The errors of a path that cannot be followed. *)
Lemma blocked_codes (t : gmap (list string) node) (dir : list string)
    (p : string) (err : failure) :
  blocked t dir p = Some err ->
  err = SystemError "ENOENT" \/ err = SystemError "ENOTDIR".
Proof.
  unfold blocked. destruct (String.eqb p ""); [intros [= <-]; by left|].
  induction (way dir p) as [|d ds IH]; cbn; [discriminate|].
  destruct (node_at t d) as [[|c x]|]; [exact IH | |];
    intros [= <-]; [by right | by left].
Qed.

(** When [./PROJECT_FOLDER] names a directory that is there and its
    last component is [.] or [..] (an empty name, [.], a name that ends
    in [/.] or [/..]), [rm] refuses its argument: the run throws at its
    second statement with exit status 1, and the tree and the working
    directory are as they were. *)
Theorem dot_names_stop_at_rm (P : string)
    (tool : list string -> list string -> gmap (list string) node ->
            result (gmap (list string) node) failure)
    (w : world) :
  base_name ("./" +:+ P) = "." \/ base_name ("./" +:+ P) = ".." ->
  blocked (tree w) (cwd w) ("./" +:+ P) = None ->
  is_dir (tree w) (resolve (cwd w) ("./" +:+ P)) = true ->
  main P (posix tool) (start w)
  = Threw (ExitCode 1) {| env := w; log := take 2 (pipeline P) |}
  /\ exit_status (main P (posix tool) (start w)) = 1
  /\ take 2 (pipeline P)
     = [ (Prepare, printStep "Preparing ...");
         (Prepare, sh ["rm"; "-rf"; "./" +:+ P]) ].
Proof.
  intros Hb Hway Hdir.
  assert (Hmain : main P (posix tool) (start w)
                  = Threw (ExitCode 1) {| env := w; log := take 2 (pipeline P) |}).
  { rewrite main_exec.
    pose proof (exec_fails_at (posix tool)
                  [(Prepare, printStep "Preparing ...")]
                  (Prepare, sh ["rm"; "-rf"; "./" +:+ P])
                  (drop 2 (pipeline P)) (start w) w (ExitCode 1) w) as Hat.
    apply Hat; [done|].
    cbn [snd posix spawn String.eqb Ascii.eqb Bool.eqb andb].
    unfold rm_rf. rewrite Hway. cbn zeta.
    unfold is_dir in Hdir.
    destruct (node_at (tree w) (resolve (cwd w) ("./" +:+ P))) as [[|d x]|];
      try discriminate.
    replace (bool_decide _ || _ || _) with true.
    - by destruct w.
    - symmetry. apply orb_true_iff.
      destruct Hb as [Hb | Hb]; rewrite Hb;
        [left; apply orb_true_iff; by right | by right]. }
  split; [exact Hmain|]. split; [by rewrite Hmain | reflexivity].
Qed.

Lemma dot_names_stop_at_rm_witness :
  main "" (posix tools_online) (start home)
  = Threw (ExitCode 1) {| env := home; log := take 2 (pipeline "") |}
  /\ main "my-app/.." (posix tools_online) (start home)
     = Threw (ExitCode 1)
         {| env := home; log := take 2 (pipeline "my-app/..") |}.
Proof.
  split.
  - destruct (dot_names_stop_at_rm "" tools_online home) as (H & _);
      [by left | vm_compute; reflexivity | vm_compute; reflexivity | exact H].
  - destruct (dot_names_stop_at_rm "my-app/.." tools_online home) as (H & _);
      [by right | vm_compute; reflexivity | vm_compute; reflexivity | exact H].
Defined.

(** When the path [./PROJECT_FOLDER] cannot be followed, because a
    directory on its way is missing (a nested project name whose parent
    is not there, say) or is a regular file, [rm -rf] removes nothing
    and says nothing, and [mkdirSync], which is not recursive, throws
    [ENOENT] or [ENOTDIR]: the run stops at its third statement, and
    the tree and the working directory are as they were. *)
Theorem unreachable_target_stops_at_mkdir (P : string)
    (tool : list string -> list string -> gmap (list string) node ->
            result (gmap (list string) node) failure)
    (w : world) (err : failure) :
  blocked (tree w) (cwd w) ("./" +:+ P) = Some err ->
  main P (posix tool) (start w)
  = Threw err {| env := w; log := take 3 (pipeline P) |}
  /\ (err = SystemError "ENOENT" \/ err = SystemError "ENOTDIR")
  /\ exit_status (main P (posix tool) (start w)) = 1
  /\ writes (take 3 (pipeline P)) = [].
Proof.
  intros Hway.
  assert (Hmain : main P (posix tool) (start w)
                  = Threw err {| env := w; log := take 3 (pipeline P) |}).
  { rewrite main_exec.
    pose proof (exec_fails_at (posix tool) (take 2 (pipeline P))
                  (Prepare, mkdirSync ("./" +:+ P))
                  (drop 3 (pipeline P)) (start w) w err w) as Hat.
    apply Hat.
    - cbn [take pipeline all_stages map concat tagged body prepare app snd
           after posix print_step spawn String.eqb Ascii.eqb Bool.eqb andb
           start env cwd tree].
      unfold rm_rf. rewrite Hway. by destruct w.
    - cbn [snd posix cwd tree]. unfold fs_mkdir. rewrite Hway. by destruct w. }
  split; [exact Hmain|]. split; [by apply blocked_codes in Hway|].
  split; [by rewrite Hmain | reflexivity].
Qed.

Lemma unreachable_target_stops_at_mkdir_witness :
  main "apps/web" (posix tools_online) (start home)
  = Threw (SystemError "ENOENT")
      {| env := home; log := take 3 (pipeline "apps/web") |}
  /\ main "my-app/notes.txt/../y/z" (posix tools_online) (start home)
     = Threw (SystemError "ENOTDIR")
         {| env := home; log := take 3 (pipeline "my-app/notes.txt/../y/z") |}
  /\ main "ghost/../my-app" (posix tools_online) (start home)
     = Threw (SystemError "ENOENT")
         {| env := home; log := take 3 (pipeline "ghost/../my-app") |}.
Proof.
  split; [|split].
  - destruct (unreachable_target_stops_at_mkdir "apps/web" tools_online home
                (SystemError "ENOENT")) as (H & _);
      [vm_compute; reflexivity | exact H].
  - destruct (unreachable_target_stops_at_mkdir "my-app/notes.txt/../y/z"
                tools_online home (SystemError "ENOTDIR")) as (H & _);
      [vm_compute; reflexivity | exact H].
  - destruct (unreachable_target_stops_at_mkdir "ghost/../my-app"
                tools_online home (SystemError "ENOENT")) as (H & _);
      [vm_compute; reflexivity | exact H].
Defined.

(** ** What a run leaves alone *)

Lemma exec_keeps {W E : Type} (perform : effect -> W -> result W E)
    (I : W -> Prop) (l : list (stage * effect)) (r : run W) :
  (forall e w, e ∈ map snd l -> I w -> I (state_of (perform e w))) ->
  I (env r) ->
  I (env (state_of (exec perform l r))).
Proof.
  revert r. induction l as [|[s e] l IH]; intros r Hstep Hr; [done|].
  cbn. unfold and_then, await.
  pose proof (Hstep e (env r) ltac:(cbn; left) Hr) as He.
  destruct (perform e (env r)) as [w'|err w']; [|done].
  apply IH; [|done]. intros e' w'' Hin. apply Hstep. cbn. by right.
Qed.

Lemma changed_only_below_refl (q : list string)
    (t : gmap (list string) node) :
  changed_only_below q t t.
Proof. intros p _. by left. Qed.

Lemma changed_only_below_trans (q : list string)
    (t1 t2 t3 : gmap (list string) node) :
  changed_only_below q t1 t2 -> changed_only_below q t2 t3 ->
  changed_only_below q t1 t3.
Proof.
  intros H12 H23 p Hp.
  destruct (H23 p Hp) as [E23|(N2 & D3 & Hq)];
    destruct (H12 p Hp) as [E12|(N1 & D2 & Hq1)].
  - left. congruence.
  - right. repeat split; [done | congruence | done].
  - right. repeat split; [congruence | done | done].
  - congruence.
Qed.

Lemma removelast_prefix (q : list string) : removelast q `prefix_of` q.
Proof. rewrite List.removelast_firstn_len. apply prefix_take. Qed.

Lemma chain_prefix (base todo p : list string) :
  p ∈ chain base todo -> p `prefix_of` base ++ todo.
Proof.
  revert base. induction todo as [|c rest IH]; intros base Hp; cbn in Hp.
  - by apply elem_of_nil in Hp.
  - apply elem_of_cons in Hp as [->|Hp].
    + exists rest. by rewrite <- app_assoc.
    + apply IH in Hp. by rewrite <- app_assoc in Hp.
Qed.

Lemma mkdirs_frame (base todo : list string) (t : gmap (list string) node)
    (p : list string) :
  state_of (mkdirs_from base todo t) !! p = t !! p
  \/ (t !! p = None
      /\ state_of (mkdirs_from base todo t) !! p = Some Dir
      /\ p ∈ chain base todo).
Proof.
  revert base t. induction todo as [|c rest IH]; intros base t; cbn;
    [by left|].
  rewrite node_at_snoc.
  destruct (t !! (base ++ [c])) as [[|d x]|] eqn:Hq.
  - destruct (IH (base ++ [c]) t) as [?|(? & ? & ?)]; [by left|].
    right. repeat split; [done..|]. by right.
  - by left.
  - destruct (IH (base ++ [c]) (<[base ++ [c] := Dir]> t))
      as [Heq|(Hn & Hd & Hin)];
      destruct (decide (p = base ++ [c])) as [->|Hne].
    + right. rewrite Heq, lookup_insert_eq. repeat split; [done..|]. by left.
    + left. by rewrite Heq, lookup_insert_ne.
    + by rewrite lookup_insert_eq in Hn.
    + right. rewrite lookup_insert_ne in Hn by done.
      repeat split; [done..|]. by right.
Qed.

Lemma fs_write_frame (q : list string) (c : content)
    (t : gmap (list string) node) (p : list string) :
  p <> q -> state_of (fs_write q c t) !! p = t !! p.
Proof.
  intros Hne. unfold fs_write.
  destruct (node_at t q) as [[|d x]|]; cbn; [done | |].
  - by rewrite lookup_insert_ne.
  - destruct (is_dir _ _); cbn; [by rewrite lookup_insert_ne | done].
Qed.

Section Frame.

Variable tool :
  list string -> list string -> gmap (list string) node ->
  result (gmap (list string) node) failure.

Lemma state_of_in_place (w : world)
    (r : result (gmap (list string) node) failure) :
  state_of (in_place w r) = {| cwd := cwd w; tree := state_of r |}.
Proof. by destruct r. Qed.

Lemma confined_cases (e : effect) :
  confined e = true ->
  fs_only e = true
  \/ exists argv,
       e = sh argv
       /\ forall w, posix tool e w = in_place w (tool argv (cwd w) (tree w)).
Proof.
  destruct e as [msg|argv|p|p|p|p d|p o n]; cbn; try done; try by left.
  destruct argv as [|c [|f [|p [|? ?]]]]; try (right; by eexists).
  destruct (String.eqb c "rm" && String.eqb f "-rf") eqn:Hrm; [done|].
  destruct (String.eqb c "chmod" && String.eqb f "a+x") eqn:Hch.
  - by left.
  - intros _. right. eexists. split; [done|]. intros w. cbn.
    by rewrite Hrm, Hch.
Qed.

Lemma fs_only_chmod (c f p : string) :
  fs_only (sh [c; f; p]) = true ->
  c = "chmod" /\ f = "a+x" /\ relative_down p = true.
Proof.
  cbn. intros H. apply andb_prop in H as [H Hp].
  apply andb_prop in H as [Hc Hf].
  by apply String.eqb_eq in Hc, Hf.
Qed.

Lemma outside_is_not_target (dir p : list string) (path : string) :
  relative_down path = true -> ¬ dir `prefix_of` p -> p <> resolve dir path.
Proof. intros Hrel Hp ->. by apply Hp, resolve_below. Qed.

(** A confined statement, whether it settles or throws, leaves the
    working directory where it is and changes nothing outside it. *)
Lemma confined_frame (e : effect) (w : world) :
  tools_stay_inside tool ->
  confined e = true ->
  cwd (state_of (posix tool e w)) = cwd w
  /\ changed_only_below (cwd w) (tree w) (tree (state_of (posix tool e w))).
Proof.
  intros Htool Hc.
  destruct (confined_cases e Hc) as [Hfs|(argv & -> & Hposix)].
  - destruct e as [msg|argv|p|p|p|p d|p o n]; try done.
    + split; [done | apply changed_only_below_refl].
    + destruct argv as [|c [|f [|p [|? ?]]]]; try done.
      apply fs_only_chmod in Hfs as (-> & -> & Hrel).
      cbn. rewrite state_of_in_place. split; [done|]. cbn.
      intros k Hk. left. unfold chmod_a_x.
      destruct (node_at _ _) as [[|d x]|]; cbn; try done.
      rewrite lookup_insert_ne; [done|].
      intros Heq. by apply (outside_is_not_target (cwd w) k p).
    + cbn in Hfs |- *. rewrite state_of_in_place. split; [done|]. cbn.
      intros k Hk.
      pose proof (outside_is_not_target _ _ _ Hfs Hk) as Hne.
      set (q := resolve (cwd w) p) in *.
      assert (Hchain : k ∈ chain [] (removelast q) -> k `prefix_of` cwd w).
      { intros Hin. apply chain_prefix in Hin. cbn in Hin.
        assert (Hkq : k `prefix_of` q)
          by (etransitivity; [exact Hin | apply removelast_prefix]).
        destruct (prefix_weak_total k (cwd w) q Hkq
                    (resolve_below (cwd w) p Hfs)); done. }
      assert (Hmk : state_of
                      (match mkdirs_from [] (removelast q) (tree w) with
                       | Ok t' => fs_write q (Text "") t'
                       | Threw err t' => Threw err t'
                       end) !! k = tree w !! k
                    \/ (tree w !! k = None
                        /\ state_of
                             (match mkdirs_from [] (removelast q) (tree w) with
                              | Ok t' => fs_write q (Text "") t'
                              | Threw err t' => Threw err t'
                              end) !! k = Some Dir
                        /\ k `prefix_of` cwd w)).
      { pose proof (mkdirs_frame [] (removelast q) (tree w) k) as Hf.
        destruct (mkdirs_from [] (removelast q) (tree w)) as [u|err u];
          [rewrite fs_write_frame by done|]; cbn in Hf |- *;
          (destruct Hf as [?|(? & ? & ?)]; [by left | right; eauto]). }
      unfold fs_ensure_file.
      destruct (node_at (tree w) q) as [[|d x]|]; [exact Hmk | by left | exact Hmk].
    + cbn in Hfs |- *. rewrite state_of_in_place. split; [done|]. cbn.
      intros k Hk. left. apply fs_write_frame.
      by apply outside_is_not_target.
    + cbn in Hfs |- *. rewrite state_of_in_place. split; [done|]. cbn.
      intros k Hk. left. apply fs_write_frame.
      by apply outside_is_not_target.
  - rewrite Hposix, state_of_in_place. split; [done|]. cbn.
    intros k Hk. left. by apply Htool.
Qed.

End Frame.

(** The first four statements: status line, [rm -rf], [mkdirSync],
    [cd].  Whatever happens, nothing outside the target changes; when
    they all settle, the working directory is the target. *)
Lemma first_four_frame (P : string)
    (tool : list string -> list string -> gmap (list string) node ->
            result (gmap (list string) node) failure)
    (w : world) :
  changed_only_below (resolve (cwd w) ("./" +:+ P)) (tree w)
    (tree (env (state_of (exec (posix tool) (take 4 (pipeline P)) (start w)))))
  /\ (succeeded (exec (posix tool) (take 4 (pipeline P)) (start w)) = true ->
      cwd (env (state_of (exec (posix tool) (take 4 (pipeline P)) (start w))))
      = resolve (cwd w) ("./" +:+ P)).
Proof.
  set (q := resolve (cwd w) ("./" +:+ P)).
  cbn [take pipeline all_stages map concat tagged body prepare app exec].
  unfold and_then, await, skip.
  cbn [posix print_step spawn String.eqb Ascii.eqb Bool.eqb andb start env
       log cwd tree].
  destruct (rm_rf (cwd w) ("./" +:+ P) (tree w)) as [t1|e1 t1] eqn:Hrm.
  2:{ apply rm_rf_throws in Hrm as (-> & _).
      cbn. split; [apply changed_only_below_refl | done]. }
  assert (Hrm' : changed_only_below q (tree w) t1).
  { apply rm_rf_settles in Hrm as [[-> _] | (-> & _)].
    - apply changed_only_below_refl.
    - intros k Hk. left. rewrite remove_tree_lookup. by case_decide. }
  cbn [in_place env cwd tree].
  destruct (fs_mkdir (cwd w) ("./" +:+ P) t1) as [t2|e2 t2] eqn:Hmk.
  2:{ apply fs_mkdir_throws in Hmk as ->. cbn. split; [exact Hrm' | done]. }
  apply fs_mkdir_settles in Hmk as (_ & _ & _ & ->). fold q.
  assert (Hmk' : changed_only_below q (tree w) (<[q := Dir]> t1)).
  { intros k Hk. rewrite lookup_insert_ne; [by apply Hrm'|].
    intros ->. by apply Hk. }
  cbn [in_place env cwd tree].
  destruct (fs_chdir (cwd w) ("./" +:+ P) (<[q := Dir]> t1)) as [q'|e3] eqn:Hcd;
    cbn; (split; [exact Hmk'|]); [|done].
  by apply fs_chdir_settles in Hcd as (-> & _).
Qed.

Lemma run_changes_only_below (P : string)
    (tool : list string -> list string -> gmap (list string) node ->
            result (gmap (list string) node) failure)
    (w : world) :
  tools_stay_inside tool ->
  changed_only_below (resolve (cwd w) ("./" +:+ P)) (tree w)
    (tree (env (state_of (main P (posix tool) (start w))))).
Proof.
  intros Htool.
  set (q := resolve (cwd w) ("./" +:+ P)).
  rewrite main_exec.
  rewrite <- (take_drop 4 (pipeline P)), exec_app. unfold and_then.
  destruct (first_four_frame P tool w) as [Hframe Hcwd]. fold q in Hframe, Hcwd.
  destruct (exec (posix tool) (take 4 (pipeline P)) (start w)) as [r4|e4 r4];
    [|exact Hframe].
  cbn [state_of env succeeded] in Hframe, Hcwd. specialize (Hcwd eq_refl).
  apply (exec_keeps (posix tool)
           (fun w' => cwd w' = q /\ changed_only_below q (tree w) (tree w')));
    [|done].
  intros e w' He [Hq Hw'].
  assert (Hconf : confined e = true).
  { assert (Hall : forallb confined (map snd (drop 4 (pipeline P))) = true)
      by (vm_compute; reflexivity).
    rewrite forallb_forall in Hall. apply Hall. by apply list_elem_of_In. }
  destruct (confined_frame tool e w' Htool Hconf) as [Hc Hf].
  rewrite Hq in Hc, Hf. split; [done|].
  by apply changed_only_below_trans with (t2 := tree w').
Qed.

(** Whatever the tree, whatever the project name and whether the run
    completes or throws: when the programs the script starts stay inside
    their working directory, the run changes nothing outside the target
    directory.  No file or directory outside it is removed, replaced or
    created; the only possible difference is a missing directory on the
    way down to the target that [fs.ensureFileSync] has created.  With a
    project name that has no [..] in it, the target lies below the
    directory the script was started in. *)
Theorem nothing_outside_the_target_is_touched (P : string)
    (tool : list string -> list string -> gmap (list string) node ->
            result (gmap (list string) node) failure)
    (w : world) :
  tools_stay_inside tool ->
  changed_only_below (resolve (cwd w) ("./" +:+ P)) (tree w)
    (tree (env (state_of (main P (posix tool) (start w)))))
  /\ (relative_down ("./" +:+ P) = true ->
      cwd w `prefix_of` resolve (cwd w) ("./" +:+ P)).
Proof.
  intros Htool. split; [by apply run_changes_only_below | apply resolve_below].
Qed.

Lemma tools_online_stay_inside : tools_stay_inside tools_online.
Proof.
  intros argv dir t p Hp. unfold tools_online.
  repeat case_match; cbn; try done;
    (rewrite lookup_insert_ne; [done|]; intros <-; apply Hp;
     by apply prefix_app_r).
Qed.

Lemma nothing_outside_the_target_is_touched_witness :
  changed_only_below ["home"; "dev"; "my-app"] (tree home)
    (tree (env (state_of (main "my-app" (posix tools_online) (start home))))).
Proof.
  apply (nothing_outside_the_target_is_touched "my-app" tools_online home).
  exact tools_online_stay_inside.
Defined.

(** ** What the file statements do to a node *)

Section Contents.

Variable tool :
  list string -> list string -> gmap (list string) node ->
  result (gmap (list string) node) failure.

Lemma node_kept_same (e : effect) (dir k : list string)
    (t t' : gmap (list string) node) :
  node_at t' k = node_at t k -> node_kept e dir k t t'.
Proof.
  intros H. unfold node_kept. rewrite H.
  destruct (node_at t k) as [[|d x]|]; eauto 6.
Qed.

Lemma fs_write_kept (e : effect) (dir k : list string) (p : string)
    (c : content) (t t' : gmap (list string) node) :
  written e = Some (p, c) ->
  fs_write (resolve dir p) c t = Ok t' ->
  node_kept e dir k t t'.
Proof.
  intros He Hw. pose proof (fs_write_not_root _ _ _ _ Hw) as Hq.
  pose proof (fs_write_result _ _ _ _ Hw) as ->.
  destruct (decide (resolve dir p = k)) as [<-|Hne].
  - unfold node_kept, fs_write in *.
    destruct (node_at t (resolve dir p)) as [[|d x]|]; [done| |done].
    rewrite node_at_insert by done. eauto 8.
  - apply node_kept_same. by apply node_at_insert_ne.
Qed.

(** A statement of [fs_only] kind never removes a node, never turns a
    file into a directory or a directory into a file, never clears an
    executable bit, and changes the content of the file it writes
    only. *)
Lemma fs_only_step (e : effect) (w w' : world) (k : list string) :
  fs_only e = true ->
  posix tool e w = Ok w' ->
  cwd w' = cwd w /\ node_kept e (cwd w) k (tree w) (tree w').
Proof.
  intros Hfs H.
  destruct e as [msg|argv|p|p|p|p d|p o n]; try done.
  - injection H as <-. split; [done | by apply node_kept_same].
  - destruct argv as [|c [|f [|p [|? ?]]]]; try done.
    apply fs_only_chmod in Hfs as (-> & -> & Hrel).
    cbn in H. apply in_place_settles in H as (u & H & ->).
    split; [done|]. cbn. unfold chmod_a_x in H.
    destruct (node_at (tree w) (resolve (cwd w) p)) as [[|d x]|] eqn:Hn;
      [| |done]; injection H as <-; [by apply node_kept_same|].
    destruct (decide (resolve (cwd w) p = k)) as [<-|Hne].
    + unfold node_kept. rewrite Hn.
      apply node_at_file in Hn as [Hq _].
      rewrite node_at_insert by done. eauto 8.
    + apply node_kept_same. by apply node_at_insert_ne.
  - cbn in H. apply in_place_settles in H as (u & H & ->).
    split; [done|]. cbn. unfold fs_ensure_file in H.
    assert (Hnew : forall v,
              mkdirs_from [] (removelast (resolve (cwd w) p)) (tree w) = Ok v ->
              fs_write (resolve (cwd w) p) (Text "") v = Ok u ->
              (forall d x, node_at (tree w) (resolve (cwd w) p)
                           <> Some (File d x)) ->
              node_kept (ensureFileSync p) (cwd w) k (tree w) u).
    { intros v Hm Hw Hnf. unfold node_kept.
      destruct (node_at (tree w) k) as [[|d x]|] eqn:Hk; [| |done].
      - pose proof (node_at_mkdirs _ _ _ _ _ _ Hm Hk) as Hv.
        pose proof (fs_write_kept (writeFileSync p "") (cwd w) k p (Text "")
                      v u eq_refl Hw) as Hkept.
        unfold node_kept in Hkept. by rewrite Hv in Hkept.
      - pose proof (node_at_mkdirs _ _ _ _ _ _ Hm Hk) as Hv.
        pose proof (fs_write_kept (writeFileSync p "") (cwd w) k p (Text "")
                      v u eq_refl Hw) as Hkept.
        unfold node_kept in Hkept. rewrite Hv in Hkept.
        destruct Hkept as (d' & x' & Hu & Hx & [->|(p' & Hp' & Hres)]).
        + eauto 8.
        + injection Hp' as -> _. subst k. by destruct (Hnf d x). }
    destruct (node_at (tree w) (resolve (cwd w) p)) as [[|d x]|] eqn:Hn.
    + destruct (mkdirs_from _ _ _) as [v|] eqn:Hm; [|done].
      by apply (Hnew v).
    + injection H as <-. by apply node_kept_same.
    + destruct (mkdirs_from _ _ _) as [v|] eqn:Hm; [|done].
      by apply (Hnew v).
  - cbn in H. apply in_place_settles in H as (u & H & ->).
    split; [done|]. cbn. by apply (fs_write_kept _ _ _ p (Text d)).
  - cbn in H. apply in_place_settles in H as (u & H & ->).
    split; [done|]. cbn. by apply (fs_write_kept _ _ _ p (Json o n)).
Qed.

Lemma written_is_relative (e : effect) (p : string) (c : content) :
  fs_only e = true -> written e = Some (p, c) -> relative_down p = true.
Proof. destruct e; try done; cbn; by intros ? [= <- _]. Qed.

Lemma spared_file_differs (e' : effect) (f : list string) (p' : string)
    (c' : content) (dir : list string) :
  fs_only e' = true -> spares f e' = true -> written e' = Some (p', c') ->
  resolve dir p' <> dir ++ f.
Proof.
  intros Hfs Hsp Hw. unfold spares in Hsp. rewrite Hw in Hsp.
  apply negb_true_iff, bool_decide_eq_false in Hsp.
  rewrite (resolve_app dir p') by by eapply written_is_relative.
  intros Heq. by apply app_inv_head in Heq.
Qed.

(** A file with content [c] keeps it through a statement that does not
    write that file. *)
Lemma file_survives_step (files : list (list string)) (e : effect)
    (w w' : world) (f : list string) (c : content) (x : bool) :
  tools_keep files tool -> f ∈ files ->
  confined e = true -> spares f e = true ->
  node_at (tree w) (cwd w ++ f) = Some (File c x) ->
  posix tool e w = Ok w' ->
  cwd w' = cwd w
  /\ exists x', node_at (tree w') (cwd w ++ f) = Some (File c x')
                /\ (x = true -> x' = true).
Proof.
  intros Htool Hf Hc Hsp Hn H.
  destruct (confined_cases tool e Hc) as [Hfs|(argv & -> & Hposix)].
  - destruct (fs_only_step e w w' (cwd w ++ f) Hfs H) as [Hcwd Hk].
    split; [done|]. unfold node_kept in Hk. rewrite Hn in Hk.
    destruct Hk as (d' & x' & Hn' & Hx & [->|(p' & Hw & Hres)]); [eauto|].
    by destruct (spared_file_differs e f p' d' (cwd w) Hfs Hsp Hw).
  - rewrite Hposix in H. apply in_place_settles in H as (u & H & ->).
    split; [done|]. cbn. exists x. split; [|done].
    apply node_at_file in Hn as [Hne Hn].
    destruct (cwd w ++ f) as [|a k] eqn:Hk; [done|]. cbn.
    rewrite <- Hk, (Htool _ _ _ _ f Hf H). by rewrite Hk.
Qed.

Lemma file_survives (files : list (list string)) (l : list effect)
    (w w' : world) (f : list string) (c : content) (x : bool) :
  tools_keep files tool -> f ∈ files ->
  forallb confined l = true -> forallb (spares f) l = true ->
  node_at (tree w) (cwd w ++ f) = Some (File c x) ->
  after (posix tool) l w = Ok w' ->
  cwd w' = cwd w
  /\ exists x', node_at (tree w') (cwd w ++ f) = Some (File c x')
                /\ (x = true -> x' = true).
Proof.
  intros Htool Hf. revert w x.
  induction l as [|e l IH]; intros w x Hc Hsp Hn H; cbn in *.
  - injection H as <-. eauto.
  - apply andb_prop in Hc as [Hc Hcs]. apply andb_prop in Hsp as [Hs Hss].
    destruct (posix tool e w) as [w1|] eqn:He; [|done].
    destruct (file_survives_step files e w w1 f c x Htool Hf Hc Hs Hn He)
      as (Hcwd & x1 & Hn1 & Hx1).
    rewrite <- Hcwd in Hn1.
    destruct (IH w1 x1 Hcs Hss Hn1 H) as (Hcwd' & x' & Hn' & Hx').
    rewrite Hcwd in Hcwd', Hn'. split; [done|]. exists x'. split; [done|].
    auto.
Qed.

Lemma write_leaves_content (e : effect) (p : string) (c : content)
    (w w' : world) :
  written e = Some (p, c) ->
  posix tool e w = Ok w' ->
  exists x, node_at (tree w') (resolve (cwd w) p) = Some (File c x).
Proof.
  intros Hw H.
  assert (Hfs : fs_write (resolve (cwd w) p) c (tree w) = Ok (tree w')).
  { destruct e; try done; injection Hw as <- <-; cbn in H;
      by apply in_place_settles in H as (u & -> & ->). }
  pose proof (fs_write_not_root _ _ _ _ Hfs) as Hq.
  rewrite (fs_write_result _ _ _ _ Hfs), node_at_insert by done. eauto.
Qed.

(** In a list of confined statements that writes no file twice, every
    file written holds, at the end, what was written to it. *)
Lemma writes_survive (files : list (list string)) (l : list effect)
    (w w' : world) :
  tools_keep files tool ->
  forallb confined l = true ->
  overwrite_free l = true ->
  Forall (fun pc => relative_down pc.1 = true /\ file_of pc.1 ∈ files)
    (omap written l) ->
  after (posix tool) l w = Ok w' ->
  Forall (fun pc => exists x, node_at (tree w') (cwd w ++ file_of pc.1)
                              = Some (File pc.2 x))
    (omap written l).
Proof.
  intros Htool. revert w.
  induction l as [|e l IH]; intros w Hc Hov Hfiles H; cbn in *; [done|].
  apply andb_prop in Hc as [Hc Hcs]. apply andb_prop in Hov as [Ho Hos].
  destruct (posix tool e w) as [w1|] eqn:He; [|done].
  assert (Hcwd : cwd w1 = cwd w).
  { destruct (confined_cases tool e Hc) as [Hfs|(argv & -> & Hposix)].
    - by destruct (fs_only_step e w w1 [] Hfs He).
    - rewrite Hposix in He. by apply in_place_settles in He as (u & _ & ->). }
  destruct (written e) as [[p c]|] eqn:Hw; cbn in *.
  - apply Forall_cons in Hfiles as [[Hrel Hin] Hfiles].
    constructor.
    + destruct (write_leaves_content e p c w w1 Hw He) as [x Hn].
      rewrite (resolve_app _ _ Hrel), <- Hcwd in Hn.
      destruct (file_survives files l w1 w' (file_of p) c x Htool Hin Hcs Ho
                  Hn H) as (_ & x' & Hn' & _).
      rewrite Hcwd in Hn'. eauto.
    + rewrite <- Hcwd. by apply IH.
  - rewrite <- Hcwd. by apply IH.
Qed.

Lemma confined_keeps_cwd (l : list effect) (w w' : world) :
  forallb confined l = true ->
  after (posix tool) l w = Ok w' -> cwd w' = cwd w.
Proof.
  revert w. induction l as [|e l IH]; intros w Hc H; cbn in *.
  - by injection H as <-.
  - apply andb_prop in Hc as [Hc Hcs].
    destruct (posix tool e w) as [w1|] eqn:He; [|done].
    rewrite (IH w1 Hcs H).
    destruct (confined_cases tool e Hc) as [Hfs|(argv & -> & Hposix)].
    + by destruct (fs_only_step e w w1 [] Hfs He).
    + rewrite Hposix in He. by apply in_place_settles in He as (u & _ & ->).
Qed.

End Contents.

(** ** The target after a completed run *)

(** When the programs the script starts leave the twelve files of their
    working directory alone, a run that completes ends in the target
    directory, and each of the twelve files is there with exactly the
    content the script wrote to it; the two hook files are
    executable. *)
Theorem completed_run_leaves_the_twelve_files (P : string)
    (tool : list string -> list string -> gmap (list string) node ->
            result (gmap (list string) node) failure)
    (w : world) (r : run world) :
  tools_keep (written_files (pipeline P)) tool ->
  main P (posix tool) (start w) = Ok r ->
  cwd (env r) = resolve (cwd w) ("./" +:+ P)
  /\ Forall (fun pc => exists x,
               tree (env r) !! (cwd (env r) ++ file_of pc.1)
               = Some (File pc.2 x))
       (writes (log r))
  /\ tree (env r) !! (cwd (env r) ++ [".husky"; "commit-msg"])
     = Some (File (Text commit_msg_hook) true)
  /\ tree (env r) !! (cwd (env r) ++ [".husky"; "pre-commit"])
     = Some (File (Text pre_commit_hook) true).
Proof.
  intros Htool H. pose proof (completed_log _ _ _ _ H) as Hlog.
  apply completed_run_shape in H as (wa & _ & _ & Htail).
  set (q := resolve (cwd w) ("./" +:+ P)) in *.
  set (w4 := {| cwd := q; tree := tree wa |}) in *.
  set (tail := map snd (drop 4 (pipeline P))) in *.
  assert (Hconf : forallb confined tail = true) by (vm_compute; reflexivity).
  assert (Hcwd : cwd (env r) = q)
    by apply (confined_keeps_cwd tool tail w4 _ Hconf Htail).
  split; [exact Hcwd|]. rewrite Hcwd. split; [|].
  - rewrite Hlog.
    change (writes (pipeline P)) with (omap written tail).
    eapply Forall_impl.
    + apply (writes_survive tool (written_files (pipeline P)) tail w4 (env r)
               Htool Hconf); [vm_compute; reflexivity | | exact Htail].
      apply Forall_forall. intros pc Hpc.
      assert (Hall : forallb (fun pc => relative_down pc.1
                                && bool_decide (file_of pc.1
                                                ∈ written_files (pipeline P)))
                       (omap written tail) = true)
        by (vm_compute; reflexivity).
      rewrite forallb_forall in Hall.
      apply list_elem_of_In, Hall, andb_prop in Hpc as [? Hin].
      split; [done | by apply bool_decide_eq_true in Hin].
    + intros pc [x Hx]. exists x. cbn [cwd w4] in Hx.
      by apply node_at_file in Hx as [_ Hx].
  - assert (Hhook : forall n p d,
      tail = take n tail ++ [writeFileSync p d; sh ["chmod"; "a+x"; p]]
             ++ drop (n + 2) tail ->
      relative_down p = true ->
      file_of p ∈ written_files (pipeline P) ->
      forallb confined (take n tail) = true ->
      forallb confined (drop (n + 2) tail) = true ->
      forallb (spares (file_of p)) (drop (n + 2) tail) = true ->
      tree (env r) !! (q ++ file_of p) = Some (File (Text d) true)).
    { intros n p d Hsplit Hrel Hin HcA HcB Hsp.
      rewrite Hsplit in Htail.
      apply after_app in Htail as (wA & HA & Htail).
      apply after_app in Htail as (wc & Hwc & HB).
      pose proof (confined_keeps_cwd tool _ _ _ HcA HA) as HcwdA.
      cbn [after] in Hwc.
      destruct (posix tool (writeFileSync p d) wA) as [wb|] eqn:Hwb; [|done].
      destruct (posix tool (sh ["chmod"; "a+x"; p]) wb) as [wc'|] eqn:Hch;
        [|done].
      injection Hwc as ->.
      pose proof (write_then_chmod tool p d wA wb wc Hwb Hch) as Hn.
      assert (Hcwdc : cwd wc = q).
      { cbn in Hwb, Hch.
        apply in_place_settles in Hwb as (? & _ & ->).
        apply in_place_settles in Hch as (? & _ & ->). done. }
      rewrite Hcwdc, (resolve_app q p Hrel), <- Hcwdc in Hn.
      destruct (file_survives tool _ _ wc (env r) (file_of p) (Text d) true
                  Htool Hin HcB Hsp Hn HB) as (_ & x' & Hn' & Hx').
      rewrite Hcwdc, (Hx' eq_refl) in Hn'.
      by apply node_at_file in Hn' as [_ Hn']. }
    split.
    + apply (Hhook 14 "./.husky/commit-msg" commit_msg_hook);
        try (vm_compute; reflexivity).
      apply (bool_decide_unpack _). vm_compute. exact I.
    + apply (Hhook 30 "./.husky/pre-commit" pre_commit_hook);
        try (vm_compute; reflexivity).
      apply (bool_decide_unpack _). vm_compute. exact I.
Qed.

Lemma tools_online_keep :
  tools_keep (written_files (pipeline "my-app")) tools_online.
Proof.
  assert (Hnot : forall f,
            f ∈ written_files (pipeline "my-app") ->
            f <> ["package.json"] /\ f <> [".git"] /\ f <> [".husky"]).
  { intros f Hf. repeat split; intros ->; revert Hf;
      apply (bool_decide_unpack _); vm_compute; exact I. }
  intros argv dir t u f Hf. destruct (Hnot f Hf) as (H1 & H2 & H3).
  unfold tools_online.
  repeat case_match; intros [= <-]; try done;
    (rewrite lookup_insert_ne; [done|]; intros Heq;
     by apply app_inv_head in Heq).
Qed.

Lemma completed_run_leaves_the_twelve_files_witness :
  tree (env (state_of (main "my-app" (posix tools_online) (start home))))
    !! ["home"; "dev"; "my-app"; ".husky"; "pre-commit"]
  = Some (File (Text pre_commit_hook) true).
Proof.
  destruct (completed_run_leaves_the_twelve_files "my-app" tools_online home
              (state_of (main "my-app" (posix tools_online) (start home))))
    as (Hcwd & _ & _ & Hpre).
  - exact tools_online_keep.
  - apply settled_state. vm_compute. reflexivity.
  - rewrite Hcwd in Hpre. exact Hpre.
Defined.

(** ** Running a stage of file statements again *)

Section Again.

Variable tool :
  list string -> list string -> gmap (list string) node ->
  result (gmap (list string) node) failure.

Lemma nothing_to_do_settles (e : effect) (w : world) :
  fs_only e = true -> nothing_to_do e w -> posix tool e w = Ok w.
Proof.
  intros Hfs Hn. destruct w as [dir t].
  destruct e as [msg|argv|p|p|p|p d|p o n]; try done.
  - destruct argv as [|c [|f [|p [|? ?]]]]; try done.
    apply fs_only_chmod in Hfs as (-> & -> & Hrel).
    cbn in Hn |- *. unfold chmod_a_x.
    destruct (node_at t (resolve dir p)) as [[|d x]|] eqn:Hq; [done| |done].
    subst x. apply node_at_file in Hq as [_ Hq]. cbn. by rewrite insert_id.
  - cbn in Hn |- *. unfold fs_ensure_file.
    by destruct (node_at t (resolve dir p)) as [[|d x]|].
  - cbn in Hn |- *. unfold fs_write.
    destruct (node_at t (resolve dir p)) as [[|d' x]|] eqn:Hq; try done.
    destruct Hn as [p' [= _ <-]].
    apply node_at_file in Hq as [_ Hq]. cbn. by rewrite insert_id.
  - cbn in Hn |- *. unfold fs_write.
    destruct (node_at t (resolve dir p)) as [[|d' x]|] eqn:Hq; try done.
    destruct Hn as [p' [= _ <-]].
    apply node_at_file in Hq as [_ Hq]. cbn. by rewrite insert_id.
Qed.

Lemma nothing_to_do_after (e : effect) (w w' : world) :
  fs_only e = true -> posix tool e w = Ok w' -> nothing_to_do e w'.
Proof.
  intros Hfs H.
  destruct e as [msg|argv|p|p|p|p d|p o n]; try done.
  - destruct argv as [|c [|f [|p [|? ?]]]]; try done.
    apply fs_only_chmod in Hfs as (-> & -> & Hrel).
    cbn in H. apply in_place_settles in H as (u & H & ->).
    cbn. unfold chmod_a_x in H.
    destruct (node_at (tree w) (resolve (cwd w) p)) as [[|d x]|] eqn:Hq;
      [| |done]; injection H as <-; [by rewrite Hq|].
    apply node_at_file in Hq as [Hq _]. by rewrite node_at_insert.
  - cbn in H. apply in_place_settles in H as (u & H & ->). cbn.
    by apply fs_ensure_file_leaves_file in H as (d & x & ->).
  - destruct (write_leaves_content tool (writeFileSync p d) p (Text d) w w'
                eq_refl H) as [x Hx].
    cbn in H. apply in_place_settles in H as (u & _ & ->). cbn in *.
    rewrite Hx. eauto.
  - destruct (write_leaves_content tool (writeJSONSync p o n) p (Json o n) w w'
                eq_refl H) as [x Hx].
    cbn in H. apply in_place_settles in H as (u & _ & ->). cbn in *.
    rewrite Hx. eauto.
Qed.

Lemma nothing_to_do_kept (e e' : effect) (w w' : world) :
  fs_only e = true -> fs_only e' = true ->
  (forall p c, written e = Some (p, c) -> spares (file_of p) e' = true) ->
  nothing_to_do e w ->
  posix tool e' w = Ok w' ->
  nothing_to_do e w'.
Proof.
  intros Hfs Hfs' Hsp Hn H.
  assert (Hstep : forall p, cwd w' = cwd w
            /\ node_kept e' (cwd w) (resolve (cwd w) p) (tree w) (tree w'))
    by (intros p; by apply (fs_only_step tool)).
  assert (Hwrite : forall p c d',
            written e = Some (p, c) ->
            d' = c \/ (exists p', written e' = Some (p', d')
                                  /\ resolve (cwd w) p' = resolve (cwd w) p) ->
            d' = c).
  { intros p c d' Hw [->|(p' & Hw' & Hres)]; [done|].
    rewrite (resolve_app (cwd w) p (written_is_relative e p c Hfs Hw)) in Hres.
    by destruct (spared_file_differs e' (file_of p) p' d' (cwd w) Hfs'
                   (Hsp p c Hw) Hw'). }
  destruct e as [msg|argv|p|p|p|p d|p o n]; try done.
  - destruct argv as [|c [|f [|p [|? ?]]]]; try done.
    apply fs_only_chmod in Hfs as (-> & -> & Hrel).
    destruct (Hstep p) as [Hcwd Hk]. cbn in Hn |- *. rewrite Hcwd.
    unfold node_kept in Hk.
    destruct (node_at (tree w) (resolve (cwd w) p)) as [[|d x]|]; [|  |done].
    + by rewrite Hk.
    + destruct Hk as (d' & x' & -> & Hx & _). auto.
  - destruct (Hstep p) as [Hcwd Hk]. cbn in Hn |- *. rewrite Hcwd.
    unfold node_kept in Hk.
    destruct (node_at (tree w) (resolve (cwd w) p)) as [[|d x]|]; try done.
    by destruct Hk as (d' & x' & -> & _).
  - destruct (Hstep p) as [Hcwd Hk]. cbn in Hn |- *. rewrite Hcwd.
    unfold node_kept in Hk.
    destruct (node_at (tree w) (resolve (cwd w) p)) as [[|d0 x]|] eqn:Hq;
      try done.
    destruct Hn as [p' [= _ <-]].
    destruct Hk as (d' & x' & Hn' & _ & Hd). rewrite Hn'.
    rewrite (Hwrite p (Text d) d' eq_refl Hd). eauto.
  - destruct (Hstep p) as [Hcwd Hk]. cbn in Hn |- *. rewrite Hcwd.
    unfold node_kept in Hk.
    destruct (node_at (tree w) (resolve (cwd w) p)) as [[|d0 x]|] eqn:Hq;
      try done.
    destruct Hn as [p' [= _ <-]].
    destruct Hk as (d' & x' & Hn' & _ & Hd). rewrite Hn'.
    rewrite (Hwrite p (Json o n) d' eq_refl Hd). eauto.
Qed.

Lemma nothing_to_do_through (e : effect) (l : list effect) (w w' : world) :
  fs_only e = true -> forallb fs_only l = true ->
  (forall p c, written e = Some (p, c) ->
               forallb (spares (file_of p)) l = true) ->
  nothing_to_do e w ->
  after (posix tool) l w = Ok w' ->
  nothing_to_do e w'.
Proof.
  intros Hfs. revert w.
  induction l as [|e' l IH]; intros w Hl Hsp Hn H; cbn in *.
  - by injection H as <-.
  - apply andb_prop in Hl as [He' Hl].
    destruct (posix tool e' w) as [w1|] eqn:H1; [|done].
    apply (IH w1); [done | | |done].
    + intros p c Hw. by destruct (andb_prop _ _ (Hsp p c Hw)).
    + apply (nothing_to_do_kept e e' w w1); try done.
      intros p c Hw. by destruct (andb_prop _ _ (Hsp p c Hw)).
Qed.

Lemma all_done (l : list effect) (w w' : world) :
  forallb fs_only l = true -> overwrite_free l = true ->
  after (posix tool) l w = Ok w' ->
  Forall (fun e => nothing_to_do e w') l.
Proof.
  revert w. induction l as [|e l IH]; intros w Hl Hov H; cbn in *; [done|].
  apply andb_prop in Hl as [He Hl]. apply andb_prop in Hov as [Ho Hov].
  destruct (posix tool e w) as [w1|] eqn:H1; [|done].
  constructor; [|by apply (IH w1)].
  apply (nothing_to_do_through e l w1 w'); try done.
  - intros p c Hw. by rewrite Hw in Ho.
  - by apply (nothing_to_do_after e w w1).
Qed.

Lemma nothing_left (l : list effect) (w : world) :
  forallb fs_only l = true ->
  Forall (fun e => nothing_to_do e w) l ->
  after (posix tool) l w = Ok w.
Proof.
  induction l as [|e l IH]; intros Hl Hn; cbn in *; [done|].
  apply andb_prop in Hl as [He Hl]. apply Forall_cons in Hn as [Hn Hns].
  rewrite (nothing_to_do_settles e w He Hn). by apply IH.
Qed.

End Again.

(** Five of the ten functions start no program but [chmod]:
    [prepareSpellChecker], [prepareCommitLint], [prepareLinter],
    [prepareFormatter] and [prepareLintStaged].  Once such a function
    has returned, calling it again on the tree it left cannot fail and
    changes nothing: not a content, not a mode, not the working
    directory. *)
Theorem file_stages_are_idempotent (P : string)
    (tool : list string -> list string -> gmap (list string) node ->
            result (gmap (list string) node) failure)
    (s : stage) (w w1 : world) :
  forallb fs_only (body P s) = true ->
  after (posix tool) (body P s) w = Ok w1 ->
  after (posix tool) (body P s) w1 = Ok w1
  /\ List.filter (fun s' => forallb fs_only (body P s')) all_stages
     = [ PrepareSpellChecker; PrepareCommitLint; PrepareLinter;
         PrepareFormatter; PrepareLintStaged ].
Proof.
  intros Hfs H. split; [|vm_compute; reflexivity].
  apply nothing_left; [done|].
  apply (all_done tool (body P s) w w1); [done| |done].
  destruct s; try (vm_compute; reflexivity); vm_compute in Hfs; done.
Qed.

Lemma file_stages_are_idempotent_witness :
  after (posix tools_online) (body "my-app" PrepareCommitLint)
    (state_of (after (posix tools_online) (body "my-app" PrepareCommitLint)
                 in_project))
  = Ok (state_of (after (posix tools_online) (body "my-app" PrepareCommitLint)
                    in_project)).
Proof.
  apply (file_stages_are_idempotent "my-app" tools_online PrepareCommitLint
           in_project).
  - vm_compute. reflexivity.
  - apply settled_state. vm_compute. reflexivity.
Defined.

(** ** A target that is already there *)

Lemma only_mkdir_is_third (P : string) (n : nat) (s : stage) (p : string) :
  pipeline P !! n = Some (s, mkdirSync p) ->
  n = 2 /\ s = Prepare /\ p = "./" +:+ P.
Proof.
  intros H.
  do 2 (destruct n as [|n]; [discriminate H|]).
  destruct n as [|n]; [by injection H as <- <-|].
  do 41 (destruct n as [|n]; [discriminate H|]).
  discriminate H.
Qed.

(** [rm -rf] comes right before [mkdirSync], so what stands at the
    target makes [mkdirSync] fail in one case only: a project name that
    ends in a slash and names a regular file.  [rm -rf] leaves such a
    file where it is, and the run throws [EEXIST] at its third
    statement, with the tree and the working directory as they were.
    For a name that does not end in a slash, a run that throws at
    [mkdirSync] never throws [EEXIST]. *)
Theorem mkdir_finds_only_a_file_named_with_a_slash (P : string)
    (tool : list string -> list string -> gmap (list string) node ->
            result (gmap (list string) node) failure)
    (w : world) (r : run world) (err : failure) (s : stage) (p : string) :
  main P (posix tool) (start w) = Threw err r ->
  last (log r) = Some (s, mkdirSync p) ->
  log r = take 3 (pipeline P)
  /\ (err = SystemError "EEXIST"
      <-> blocked (tree w) (cwd w) ("./" +:+ P) = None
          /\ ends_in_slash ("./" +:+ P) = true
          /\ exists d x,
               node_at (tree w) (resolve (cwd w) ("./" +:+ P))
               = Some (File d x))
  /\ (err = SystemError "EEXIST" -> env r = w)
  /\ (ends_in_slash ("./" +:+ P) = false -> err <> SystemError "EEXIST").
Proof.
  intros H Hlast. rewrite main_exec in H.
  apply exec_throws in H as (pre & e & post & w1 & Hl & Hpre & He & Hlog).
  cbn [start log env app] in *.
  rewrite Hlog, last_snoc in Hlast. injection Hlast as ->.
  assert (Hn : pipeline P !! length pre = Some (s, mkdirSync p))
    by (rewrite Hl; apply list_lookup_middle; done).
  apply only_mkdir_is_third in Hn as (Hn & -> & ->).
  assert (Hpre2 : pre = take 2 (pipeline P)).
  { rewrite Hl, <- Hn. by rewrite take_app_length. }
  rewrite Hpre2 in Hpre, Hlog. clear Hl Hpre2 Hn.
  cbn [take pipeline all_stages map concat tagged body prepare app snd
       after posix print_step spawn String.eqb Ascii.eqb Bool.eqb andb]
    in Hpre.
  destruct (rm_rf (cwd w) ("./" +:+ P) (tree w)) as [t1|] eqn:Hrm;
    [|discriminate].
  cbn [in_place] in Hpre. injection Hpre as <-.
  cbn [snd posix cwd tree] in He.
  destruct (fs_mkdir (cwd w) ("./" +:+ P) t1) as [|e' t'] eqn:Hmk;
    [discriminate|].
  cbn [in_place] in He. injection He as -> He.
  pose proof (fs_mkdir_throws _ _ _ _ _ Hmk) as ->.
  pose proof (fs_mkdir_exists _ _ _ _ _ Hmk) as Hex.
  assert (Hiff : err = SystemError "EEXIST"
                 <-> blocked (tree w) (cwd w) ("./" +:+ P) = None
                     /\ ends_in_slash ("./" +:+ P) = true
                     /\ exists d x,
                          node_at (tree w) (resolve (cwd w) ("./" +:+ P))
                          = Some (File d x)).
  { rewrite Hex. split.
    - intros [Hb Hnode].
      apply rm_rf_settles in Hrm as [[-> Hcase] | (-> & _ & Hq)].
      + by destruct Hcase as [Hcase | Hcase].
      + by rewrite node_at_removed in Hnode.
    - intros (Hb & Hs & d & x & Hnode).
      unfold rm_rf in Hrm. rewrite Hb in Hrm. cbn zeta in Hrm.
      rewrite Hnode, Hs in Hrm. injection Hrm as <-.
      split; [done | by rewrite Hnode]. }
  split; [by rewrite Hlog|]. split; [exact Hiff|]. split.
  - intros Herr. apply Hiff in Herr as (Hb & Hs & d & x & Hnode).
    unfold rm_rf in Hrm. rewrite Hb in Hrm. cbn zeta in Hrm.
    rewrite Hnode, Hs in Hrm. injection Hrm as <-.
    rewrite <- He. by destruct w.
  - intros Hs Herr. apply Hiff in Herr as (_ & Hs' & _). congruence.
Qed.

Lemma mkdir_finds_only_a_file_named_with_a_slash_witness :
  log (state_of (main "my-app/notes.txt/" (posix tools_online) (start home)))
  = take 3 (pipeline "my-app/notes.txt/")
  /\ env (state_of (main "my-app/notes.txt/" (posix tools_online) (start home)))
     = home.
Proof.
  destruct (mkdir_finds_only_a_file_named_with_a_slash "my-app/notes.txt/"
              tools_online home
              (state_of (main "my-app/notes.txt/" (posix tools_online)
                           (start home)))
              (SystemError "EEXIST") Prepare "./my-app/notes.txt/")
    as (Hlog & _ & Henv & _).
  - apply thrown_state. vm_compute. reflexivity.
  - vm_compute. reflexivity.
  - split; [exact Hlog | exact (Henv eq_refl)].
Defined.

(** ** The second run *)

Lemma foldl_enter_empty (acc cs : list string) :
  List.filter (fun c => negb (String.eqb c "")) cs = [] ->
  foldl enter acc cs = acc.
Proof.
  induction cs as [|c cs IH]; [done|]. cbn.
  destruct (String.eqb c "") eqn:Hc; [|discriminate]. cbn. intros H.
  unfold enter at 2. rewrite Hc. by apply IH.
Qed.

Lemma dot_is_on_the_way_from (acc cs : list string) :
  List.last (List.filter (fun c => negb (String.eqb c "")) cs) "" = "."
  \/ List.last (List.filter (fun c => negb (String.eqb c "")) cs) "" = ".." ->
  exists d, d ∈ way_from acc cs /\ foldl enter acc cs `prefix_of` d.
Proof.
  revert acc. induction cs as [|c cs IH]; intros acc Hb.
  { cbn in Hb. by destruct Hb. }
  cbn [List.filter way_from foldl] in *.
  destruct (String.eqb c "") eqn:Hc; cbn [negb] in Hb.
  - unfold enter at 2. rewrite Hc. by apply IH.
  - destruct (List.filter _ cs) as [|c' cs'] eqn:Hf.
    + exists acc. split; [by left|].
      rewrite foldl_enter_empty by done. cbn in Hb.
      destruct Hb as [-> | ->]; cbn; [done | apply removelast_prefix].
    + destruct (IH (enter acc c)) as (d & Hd & Hpre); [exact Hb|].
      exists d. split; [by right | done].
Qed.

(** A path that ends in [.] or [..] is looked up in the very place it
    leads to, or below it. *)
Lemma dot_is_on_the_way (dir : list string) (p : string) :
  base_name p = "." \/ base_name p = ".." ->
  exists d, d ∈ way dir p /\ resolve dir p `prefix_of` d.
Proof. apply dot_is_on_the_way_from. Qed.

(** After a run that has completed, a second run started in the same
    place gets through the removal and the re-creation of the target
    without fail: [rm -rf] accepts the target again, [mkdirSync] finds
    its parent, [cd] finds the new directory, and the directory is
    empty.  The programs are assumed to stay inside their working
    directory.  What the first run has left at the target does not
    matter, but for one case, set aside by the last hypothesis: a
    project name that ends in a slash, where the programs have put a
    regular file in the place of the directory
    ([replaced_target_blocks_the_second_run] below). *)
Theorem second_run_recreates_without_fail (P : string)
    (tool : list string -> list string -> gmap (list string) node ->
            result (gmap (list string) node) failure)
    (w0 : world) (r1 : run world) :
  tools_stay_inside tool ->
  main P (posix tool) (start w0) = Ok r1 ->
  (ends_in_slash ("./" +:+ P) = true ->
   forall d x,
     node_at (tree (env r1)) (resolve (cwd w0) ("./" +:+ P))
     <> Some (File d x)) ->
  exists w4,
    after (posix tool) (take 4 (prepare P)) (again w0 (env r1)) = Ok w4
    /\ cwd w4 = resolve (cwd w0) ("./" +:+ P)
    /\ directory (resolve (cwd w0) ("./" +:+ P)) (tree w4)
       = {[ resolve (cwd w0) ("./" +:+ P) := Dir ]}.
Proof.
  intros Htool H1 Hkeep.
  pose proof (run_changes_only_below P tool w0 Htool) as Hframe.
  rewrite H1 in Hframe. cbn [state_of] in Hframe.
  rewrite main_exec in H1. apply exec_settles in H1 as [_ H1].
  cbn [start env] in H1.
  change (map snd (pipeline P))
    with (take 4 (prepare P) ++ map snd (drop 4 (pipeline P))) in H1.
  apply after_app in H1 as (w4' & H4 & _).
  set (q := resolve (cwd w0) ("./" +:+ P)) in *. unfold again.
  cbn [take prepare after posix print_step spawn String.eqb Ascii.eqb
       Bool.eqb andb cwd tree] in H4 |- *.
  (* the first run *)
  destruct (rm_rf (cwd w0) ("./" +:+ P) (tree w0)) as [t1|] eqn:Hrm0; [|done].
  cbn [in_place cwd tree] in H4.
  destruct (fs_mkdir (cwd w0) ("./" +:+ P) t1) as [t2|] eqn:Hmk0; [|done].
  clear H4.
  apply fs_mkdir_settles in Hmk0 as (Hb1 & Hn1 & Hd1 & _).
  fold q in Hn1, Hd1.
  apply rm_rf_settles in Hrm0 as [[-> Hrm0] | (-> & _ & Hq)].
  { destruct Hrm0 as [Hrm0 | (_ & d & x & Hrm0)]; [done|].
    fold q in Hrm0. by rewrite Hrm0 in Hn1. }
  fold q in Hq, Hb1, Hd1.
  apply blocked_None in Hb1 as [Hp Hway1].
  set (tr := tree (env r1)) in *.
  assert (Hlift : forall d, is_dir (remove_tree q (tree w0)) d = true ->
                            is_dir (remove_tree q tr) d = true).
  { intros d. unfold is_dir. destruct d as [|c k]; [done|]. cbn.
    rewrite !remove_tree_lookup. case_decide as Hd; [done|].
    by destruct (Hframe (c :: k) Hd) as [-> | (-> & _)]. }
  assert (Hsub : forall t d, is_dir (remove_tree q t) d = true ->
                             is_dir t d = true).
  { intros t d. unfold is_dir. destruct d as [|c k]; [done|]. cbn.
    rewrite remove_tree_lookup. by case_decide. }
  assert (Hins : forall t d, is_dir t d = true ->
                             is_dir (<[q := Dir]> t) d = true).
  { intros t d. unfold is_dir. destruct d as [|c k]; [done|]. cbn.
    destruct (decide (q = c :: k)) as [<-|Hne];
      [by rewrite lookup_insert_eq | by rewrite lookup_insert_ne]. }
  assert (Hout : forall d, d ∈ way (cwd w0) ("./" +:+ P) -> ¬ q `prefix_of` d).
  { intros d Hd Hpre. specialize (Hway1 d Hd). unfold is_dir in Hway1.
    destruct d as [|c k]; [by apply prefix_nil_inv in Hpre|].
    cbn in Hway1. by rewrite remove_tree_lookup, decide_True in Hway1. }
  assert (Hdot : String.eqb (base_name ("./" +:+ P)) "." = false
                 /\ String.eqb (base_name ("./" +:+ P)) ".." = false).
  { split; apply String.eqb_neq; intros Hb.
    - destruct (dot_is_on_the_way (cwd w0) ("./" +:+ P)) as (d & Hd & Hpre);
        [by left | by apply (Hout d Hd)].
    - destruct (dot_is_on_the_way (cwd w0) ("./" +:+ P)) as (d & Hd & Hpre);
        [by right | by apply (Hout d Hd)]. }
  (* the second run *)
  assert (Hrm : rm_rf (cwd w0) ("./" +:+ P) tr = Ok (remove_tree q tr)).
  { unfold rm_rf.
    rewrite (proj2 (blocked_None tr (cwd w0) ("./" +:+ P))); [|by auto].
    cbn zeta. fold q. destruct (node_at tr q) as [[|d x]|] eqn:Hn; [| |done].
    - rewrite bool_decide_eq_false_2 by done.
      destruct Hdot as [-> ->]. done.
    - destruct (ends_in_slash ("./" +:+ P)) eqn:Hs; [|done].
      by destruct (Hkeep eq_refl d x). }
  rewrite Hrm. cbn [in_place cwd tree].
  assert (Hmk : fs_mkdir (cwd w0) ("./" +:+ P) (remove_tree q tr)
                = Ok (<[q := Dir]> (remove_tree q tr))).
  { unfold fs_mkdir.
    rewrite (proj2 (blocked_None _ (cwd w0) ("./" +:+ P))); [|by auto].
    cbn zeta. fold q. rewrite node_at_removed by done.
    by rewrite (Hlift _ Hd1). }
  rewrite Hmk. cbn [in_place cwd tree].
  assert (Hcd : fs_chdir (cwd w0) ("./" +:+ P) (<[q := Dir]> (remove_tree q tr))
                = inl q).
  { unfold fs_chdir.
    rewrite (proj2 (blocked_None _ (cwd w0) ("./" +:+ P))); [|by auto].
    fold q. by rewrite node_at_insert. }
  rewrite Hcd. eexists. split; [done|]. split; [done|]. cbn [tree].
  apply map_eq. intros k.
  rewrite directory_lookup, lookup_insert, remove_tree_lookup.
  destruct (decide (q = k)) as [<-|Hne].
  - rewrite lookup_singleton_eq. by rewrite decide_True.
  - rewrite lookup_singleton_ne by done. by repeat case_decide.
Qed.

Lemma second_run_recreates_without_fail_witness :
  (exists w4,
     after (posix tools_online) (take 4 (prepare "my-app"))
       (again home
          (env (state_of (main "my-app" (posix tools_online) (start home)))))
     = Ok w4
     /\ cwd w4 = ["home"; "dev"; "my-app"])
  /\ (exists w4,
        after (posix tools_online) (take 4 (prepare "my-app/"))
          (again home
             (env (state_of (main "my-app/" (posix tools_online) (start home)))))
        = Ok w4
        /\ cwd w4 = ["home"; "dev"; "my-app"]).
Proof.
  split.
  - destruct (second_run_recreates_without_fail "my-app" tools_online home
                (state_of (main "my-app" (posix tools_online) (start home))))
      as (w4 & H4 & Hcwd & _).
    + exact tools_online_stay_inside.
    + apply settled_state. vm_compute. reflexivity.
    + intros Hs. vm_compute in Hs. discriminate Hs.
    + exists w4. split; [exact H4 | exact Hcwd].
  - destruct (second_run_recreates_without_fail "my-app/" tools_online home
                (state_of (main "my-app/" (posix tools_online) (start home))))
      as (w4 & H4 & Hcwd & _).
    + exact tools_online_stay_inside.
    + apply settled_state. vm_compute. reflexivity.
    + intros _ d x. vm_compute. discriminate.
    + exists w4. split; [exact H4 | exact Hcwd].
Defined.

Lemma tools_replacing_stay_inside : tools_stay_inside tools_replacing.
Proof.
  intros argv dir t p Hp. unfold tools_replacing.
  destruct (starts_with _ argv); [|by apply tools_online_stay_inside].
  cbn. rewrite lookup_insert_ne by (intros <-; by apply Hp).
  rewrite remove_tree_lookup. by case_decide.
Qed.

(** The case set aside: the name ends in a slash, the first run
    completes, and its last program has put a regular file in the place
    of the target.  [rm -rf ./my-app/] leaves the file, and
    [mkdirSync] finds it. *)
Example replaced_target_blocks_the_second_run :
  succeeded (main "my-app/" (posix tools_replacing) (start home)) = true
  /\ error_of
       (after (posix tools_replacing) (take 4 (prepare "my-app/"))
          (again home
             (env (state_of
                     (main "my-app/" (posix tools_replacing) (start home))))))
     = Some (SystemError "EEXIST").
Proof. split; vm_compute; reflexivity. Qed.
